(** * seqio/scripts/cache_tasks_main.py: the caching pipeline

    A shallow embedding of the planner [run_pipeline], of the Beam
    transforms [PreprocessTask], [GetInfo] and [GetStats], and of the
    dataflow graph they are wired into, with the properties of the
    specification stated over them.

    Python values are modelled as follows: [str] as [string], [int] as [Z],
    a [dict] with string keys as [gmap string _], a PCollection as a [list]
    whose order no consumer may depend on, a raised exception as [None]. *)

From Stdlib Require Import ZArith Ascii String List Lia Bool.
From stdpp Require Import base option list strings gmap fin_maps.

Local Open Scope string_scope.
Local Open Scope Z_scope.
Local Open Scope list_scope.

(** ** Python string helpers *)

Module PyStr.

(** [old in s] for strings: [old] occurs in [s] as a contiguous substring. *)
Fixpoint contains (old s : string) : bool :=
  String.prefix old s ||
  match s with
  | EmptyString => false
  | String _ s' => contains old s'
  end.

(** [s.replace(old, new)] for a non-empty [old]: every non-overlapping
    occurrence of [old], scanning from the left, is replaced by [new].
    [skip] counts the characters of an occurrence that is being consumed. *)
Fixpoint replace_from (old new : string) (skip : nat) (s : string) : string :=
  match s with
  | EmptyString => EmptyString
  | String c s' =>
      match skip with
      | S k => replace_from old new k s'
      | O =>
          if String.prefix old s
          then new +:+ replace_from old new (Nat.pred (String.length old)) s'
          else String c (replace_from old new 0 s')
      end
  end.

Definition replace (old new s : string) : string := replace_from old new 0 s.

(** [s.startswith(p)] and [s.endswith(p)] *)
Definition startswith (s p : string) : bool := String.prefix p s.

Fixpoint endswith (s p : string) : bool :=
  String.eqb s p ||
  match s with
  | EmptyString => false
  | String _ s' => endswith s' p
  end.

End PyStr.

(** ** Transformed records

    A record yielded by [ds.as_numpy_iterator()] maps feature names to numpy
    values.  One-dimensional arrays carry their element type and their
    elements (for the element types that are not integers the elements are an
    encoding the code never inspects); everything that is not an
    [np.ndarray] (numpy scalars, byte strings) is a [Scalar]. *)

Inductive dtype : Set :=
  | int8 | int16 | int32 | int64 | uint8
  | float32 | float64 | bool_ | string_.

Inductive value : Type :=
  | NdArray (dt : dtype) (data : list Z)
  | Scalar (dt : dtype).

Abbreviation example := (gmap string value).
Abbreviation stats_dict := (gmap string Z).

Definition dtype_name (dt : dtype) : string :=
  match dt with
  | int8 => "int8" | int16 => "int16" | int32 => "int32" | int64 => "int64"
  | uint8 => "uint8" | float32 => "float32" | float64 => "float64"
  | bool_ => "bool" | string_ => "string"
  end.

Definition value_dtype (v : value) : dtype :=
  match v with
  | NdArray dt _ => dt
  | Scalar dt => dt
  end.

(** [len(t.shape)] of [tf.constant(v)] *)
Definition rank (v : value) : nat :=
  match v with
  | NdArray _ _ => 1
  | Scalar _ => 0
  end.

(** ** Python builtins and Beam primitives used by the transforms *)

Module Py.

(** [sum(xs)] *)
Definition sum (xs : list Z) : Z := foldr Z.add 0 xs.

(** [max(xs)]; Python raises on an empty argument, which [CombinePerKey]
    never passes: a key has a group only when it has a value. *)
Definition max (xs : list Z) : Z :=
  match xs with
  | [] => 0
  | x :: xs' => fold_left Z.max xs' x
  end.

(** Truth value of an optional string: [None] and [''] are false. *)
Definition truthy (o : option string) : bool :=
  match o with
  | Some s => negb (String.eqb s "")
  | None => false
  end.

End Py.

Module Beam.

(** [beam.FlatMap(f)] *)
Definition FlatMap {A B} (f : A -> list B) (pcoll : list A) : list B :=
  flat_map f pcoll.

(** [beam.Flatten()] of a list of PCollections *)
Definition Flatten {A} (pcolls : list (list A)) : list A := concat pcolls.

(** [beam.combiners.Count.Globally()]: one element, also on empty input *)
Definition CountGlobally {A} (pcoll : list A) : list Z :=
  [Z.of_nat (length pcoll)].

(** The values grouped under key [k] *)
Definition values_of (k : string) (kvs : list (string * Z)) : list Z :=
  map snd (filter (fun kv => fst kv = k) kvs).

(** [beam.CombinePerKey(fn)]: one pair per distinct key, holding [fn] of
    the values of that key *)
Definition CombinePerKey (fn : list Z -> Z) (kvs : list (string * Z))
  : list (string * Z) :=
  map (fun k => (k, fn (values_of k kvs))) (remove_dups (map fst kvs)).

(** [beam.io.WriteToText]: the bytes of the single output shard.  The header
    comes first, then the elements; a line terminator follows each of them
    only when [append_trailing_newlines] is set. *)
Definition text_file_body (header : string) (append_trailing_newlines : bool)
    (elements : list string) : string :=
  let nl := if append_trailing_newlines then String "010"%char "" else "" in
  (header +:+ nl) +:+ String.concat "" (map (fun e => e +:+ nl) elements).

End Beam.

(** ** GetStats *)

Module GetStats.

Definition to_dict (x : string * Z) : stats_dict := {[ fst x := snd x ]}.

Definition is_int32_or_int64 (dt : dtype) : bool :=
  match dt with
  | int32 | int64 => true
  | _ => false
  end.

(** [_count(ex)] inside [_count_tokens(pcoll, feat)] *)
Definition _count (feat : string) (ex : example) : list (string * Z) :=
  match ex !! feat with
  | Some (NdArray dt data) =>
      if is_int32_or_int64 dt
      then [(feat +:+ "_tokens",
             Py.sum (map (fun x => if 1 <? x then 1 else 0) data))]
      else []
  | _ => []
  end.

Definition _count_tokens (pcoll : list example) (feat : string)
  : list (string * Z) :=
  Beam.FlatMap (_count feat) pcoll.

(** [_merge_dicts(dicts)]; [None] is the failed assertion *)
Fixpoint merge_loop (merged_dict : stats_dict) (dicts : list stats_dict)
  : option stats_dict :=
  match dicts with
  | [] => Some merged_dict
  | d :: dicts' =>
      if bool_decide (dom merged_dict ∩ dom d = (∅ : gset string))
      then merge_loop (d ∪ merged_dict) dicts'
      else None
  end.

(** Two dictionaries share no key. *)
Definition disjoint_keys (d1 d2 : stats_dict) : Prop := dom d1 ## dom d2.

Definition _merge_dicts (dicts : list stats_dict) : option stats_dict :=
  merge_loop ∅ dicts.

Definition example_counts (pcoll : list example) : list stats_dict :=
  map to_dict (map (fun x => ("examples", x)) (Beam.CountGlobally pcoll)).

Definition token_counts (output_features : gset string) (pcoll : list example)
  : list (string * Z) :=
  Beam.Flatten (map (_count_tokens pcoll) (elements output_features)).

Definition total_tokens (output_features : gset string) (pcoll : list example)
  : list stats_dict :=
  map to_dict (Beam.CombinePerKey Py.sum (token_counts output_features pcoll)).

Definition rename_max_stat (x : string * Z) : string * Z :=
  (PyStr.replace "tokens" "max_tokens" (fst x), snd x).

Definition max_tokens (output_features : gset string) (pcoll : list example)
  : list stats_dict :=
  map to_dict
    (map rename_max_stat
       (Beam.CombinePerKey Py.max (token_counts output_features pcoll))).

(** [GetStats(output_features).expand(pcoll)]: the merged dictionary, or
    [None] when the assertion of [_merge_dicts] fails. *)
Definition expand (output_features : gset string) (pcoll : list example)
  : option stats_dict :=
  _merge_dicts
    (Beam.Flatten [example_counts pcoll;
                   total_tokens output_features pcoll;
                   max_tokens output_features pcoll]).

(** The keys the declared features can contribute to the merged dictionary *)
Definition statistic_keys (output_features : gset string) : list string :=
  "examples"
    :: map (fun f => f +:+ "_tokens") (elements output_features)
    ++ map (fun f => PyStr.replace "tokens" "max_tokens" (f +:+ "_tokens"))
         (elements output_features).

End GetStats.

(** *** The statistics as the specification words them *)

(** The value of feature [f] in [ex] is an integer array. *)
Definition int_array_feature (f : string) (ex : example) : Prop :=
  exists dt data,
    ex !! f = Some (NdArray dt data) /\ GetStats.is_int32_or_int64 dt = true.

(** The count of elements of [f] in [ex] that are strictly greater than 1 *)
Definition tokens_in (f : string) (ex : example) : Z :=
  match ex !! f with
  | Some (NdArray _ data) => Z.of_nat (length (filter (fun x => 1 < x) data))
  | _ => 0
  end.

(** [m] is the maximum of the non-empty list [xs]. *)
Definition is_max_of (m : Z) (xs : list Z) : Prop :=
  m ∈ xs /\ Forall (fun x => x <= m) xs.

(** ** Python regular expressions, the fragment the planner is studied on

    [re.compile] and [re.match] for patterns built from literal characters,
    [.], [*], [|], groups and [\Z].  A pattern that uses anything else of the
    regular-expression syntax, or that Python rejects, compiles to [None]. *)

Module Re.

Inductive token : Set :=
  | TChar (c : ascii) | TDot | TStar | TBar | TLParen | TRParen | TEndZ.

Definition unsupported (c : ascii) : bool :=
  existsb (Ascii.eqb c)
    ["^"; "$"; "+"; "?"; "{"; "}"; "["; "]"]%char.

Definition token_of (c : ascii) : token :=
  if Ascii.eqb c "." then TDot
  else if Ascii.eqb c "*" then TStar
  else if Ascii.eqb c "|" then TBar
  else if Ascii.eqb c "(" then TLParen
  else if Ascii.eqb c ")" then TRParen
  else TChar c.

(** [escaped] holds when the previous character was a backslash; the only
    escape of the fragment is [\Z]. *)
Fixpoint lex_from (escaped : bool) (s : string) : option (list token) :=
  match s with
  | EmptyString => if escaped then None else Some []
  | String c s' =>
      if escaped
      then if Ascii.eqb c "Z"
           then match lex_from false s' with
                | Some ts => Some (TEndZ :: ts)
                | None => None
                end
           else None
      else if Ascii.eqb c "\" then lex_from true s'
      else if unsupported c then None
      else match lex_from false s' with
           | Some ts => Some (token_of c :: ts)
           | None => None
           end
  end.

Definition lex (s : string) : option (list token) := lex_from false s.

Inductive regex : Set :=
  | Void | Eps | Chr (c : ascii) | Any | EndZ
  | Seq (r1 r2 : regex) | Alt (r1 r2 : regex) | Star (r : regex).

(** A sequence of pieces and a choice between branches *)
Definition seqs (pieces : list regex) : regex := fold_right Seq Eps pieces.
Definition alts (branches : list regex) : regex := fold_right Alt Void branches.

(** The parser keeps one frame per open group: the branches already closed
    by a [|], the pieces of the branch being read, and whether the last piece
    may take a repetition. *)
Record frame : Set := Frame {
  done_ : list (list regex);
  cur : list regex;
  rep : bool
}.

Definition empty_frame : frame := Frame [] [] false.

Definition push (r : regex) (repeatable : bool) (f : frame) : frame :=
  Frame (done_ f) (cur f ++ [r]) repeatable.

Fixpoint star_last (pieces : list regex) : option (list regex) :=
  match pieces with
  | [] => None
  | [x] => Some [Star x]
  | y :: pieces' =>
      match star_last pieces' with
      | Some l => Some (y :: l)
      | None => None
      end
  end.

Definition branches_of (f : frame) : list (list regex) := done_ f ++ [cur f].

Definition close (f : frame) : regex := alts (map seqs (branches_of f)).

(** One token.  [None] is [re.error]: nothing to repeat, multiple repeat,
    unbalanced parenthesis. *)
Definition step (st : list frame) (t : token) : option (list frame) :=
  match st with
  | [] => None
  | f :: st' =>
      match t with
      | TChar c => Some (push (Chr c) true f :: st')
      | TDot => Some (push Any true f :: st')
      | TEndZ => Some (push EndZ false f :: st')
      | TStar =>
          if rep f
          then match star_last (cur f) with
               | Some l => Some (Frame (done_ f) l false :: st')
               | None => None
               end
          else None
      | TBar => Some (Frame (branches_of f) [] false :: st')
      | TLParen => Some (empty_frame :: f :: st')
      | TRParen =>
          match st' with
          | [] => None
          | g :: st'' => Some (push (close f) true g :: st'')
          end
      end
  end.

Fixpoint run (ts : list token) (st : list frame) : option (list frame) :=
  match ts with
  | [] => Some st
  | t :: ts' =>
      match step st t with
      | Some st' => run ts' st'
      | None => None
      end
  end.

(** The stack of a run that takes place inside a group which already holds
    the branches [D], above the frames [S]. *)
Definition prefix_done (D : list (list regex)) (f : frame) : frame :=
  Frame (D ++ done_ f) (cur f) (rep f).

Fixpoint graft (D : list (list regex)) (S st : list frame) : list frame :=
  match st with
  | [] => []
  | [b] => prefix_done D b :: S
  | f :: st' => f :: graft D S st'
  end.

(** The branches of a pattern once [\Z] is written behind it: the assertion
    joins the last branch only. *)
Fixpoint anchor (branches : list (list regex)) : list (list regex) :=
  match branches with
  | [] => []
  | [c] => [c ++ [EndZ]]
  | b :: branches' => b :: anchor branches'
  end.

(** The tokens of [r"\Z|".join(patterns)], from the tokens of the patterns *)
Fixpoint join_tokens (tss : list (list token)) : list token :=
  match tss with
  | [] => []
  | [ts] => ts
  | ts :: tss' => ts ++ [TEndZ; TBar] ++ join_tokens tss'
  end.

(** The top-level branches of a pattern *)
Definition pattern_branches (p : string) : option (list (list regex)) :=
  match lex p with
  | Some ts =>
      match run ts [empty_frame] with
      | Some [f] => Some (branches_of f)
      | _ => None
      end
  | None => None
  end.

(** [re.compile(p)] *)
Definition compile (p : string) : option regex :=
  match pattern_branches p with
  | Some bs => Some (alts (map seqs bs))
  | None => None
  end.

Definition newline : ascii := "010"%char.

(** Repetition: [step s] are the suffixes left by one more match of the
    repeated expression; only matches that consume input are iterated. *)
Definition star_iter (step : string -> list string)
  : nat -> string -> list string :=
  fix go (n : nat) (s : string) : list string :=
    match n with
    | O => [s]
    | S n' =>
        s :: flat_map (go n')
               (List.filter
                  (fun s' => (String.length s' <? String.length s)%nat)
                  (step s))
    end.

(** [ends r s]: the suffixes of [s] that remain after [r] has matched at the
    start of [s], in all possible ways.  [\Z] matches only at the very end
    and [.] matches every character but the line feed. *)
Fixpoint ends (r : regex) (s : string) : list string :=
  match r with
  | Void => []
  | Eps => [s]
  | Chr c =>
      match s with
      | String c' s' => if Ascii.eqb c c' then [s'] else []
      | EmptyString => []
      end
  | Any =>
      match s with
      | String c' s' => if Ascii.eqb c' newline then [] else [s']
      | EmptyString => []
      end
  | EndZ =>
      match s with
      | EmptyString => [s]
      | String _ _ => []
      end
  | Seq r1 r2 => flat_map (ends r2) (ends r1 s)
  | Alt r1 r2 => ends r1 s ++ ends r2 s
  | Star r' => star_iter (ends r') (String.length s) s
  end.

(** [bool(l)] for a list *)
Definition nonempty {A} (l : list A) : bool :=
  match l with [] => false | _ :: _ => true end.

(** [bool(r.match(s))]: [r] matches at the start of [s]. *)
Definition match_ (r : regex) (s : string) : bool :=
  match ends r s with
  | [] => false
  | _ :: _ => true
  end.

(** [bool(re.fullmatch(p, s))]: the pattern matches all of [s]. *)
Definition fullmatch (p s : string) : bool :=
  match compile p with
  | Some r => existsb (String.eqb "") (ends r s)
  | None => false
  end.

End Re.

(** ** Task selection in [run_pipeline] *)

(** [xs or default] for an optional list *)
Definition py_or {A} (xs : option (list A)) (default : list A) : list A :=
  match xs with
  | None | Some [] => default
  | Some l => l
  end.

(** [r"(%s\Z)" % r"\Z|".join(patterns)] *)
Definition regex_source (patterns : list string) : string :=
  "(" +:+ String.concat "\Z|" patterns +:+ "\Z)".

(** The comprehension that rebinds [task_names]; [registry_names] is
    [seqio.TaskRegistry.names()].  [None] is [re.error]. *)
Definition select_tasks (registry_names : list string)
    (task_names excluded_tasks : option (list string)) : option (list string) :=
  match Re.compile (regex_source (py_or task_names [".*"])) with
  | Some included_regex =>
      match Re.compile (regex_source (py_or excluded_tasks [])) with
      | Some excluded_regex =>
          Some (List.filter
                  (fun t => Re.match_ included_regex t
                            && negb (Re.match_ excluded_regex t))
                  registry_names)
      | None => None
      end
  | None => None
  end.

(** What [run_pipeline] does with a single pattern [p]: [t] is selected. *)
Definition selects (p t : string) : bool :=
  match Re.compile (regex_source [p]) with
  | Some r => Re.match_ r t
  | None => false
  end.

(** The name contains no line feed. *)
Definition one_line (t : string) : bool :=
  negb (PyStr.contains (String Re.newline "") t).

(** ** Tasks and the collaborators of the planner *)

(** A [seqio.Task] as the script uses it.  [list_shards] and [get_dataset]
    are those of [task.source]; a raw record is a feature dictionary too. *)
Record Task : Type := {
  name : string;
  supports_caching : bool;
  cache_dir : option string;
  splits : list string;
  output_features : gset string;
  list_shards : string -> list string;
  get_dataset : string -> nat -> nat -> list example;
  preprocess_precache : list example -> list example;
  is_function_source : bool
}.

(** The path helpers of [seqio.utils], which the script only calls. *)
Record SeqioUtils : Type := {
  get_task_dir_from_name : string -> string;
  get_cached_tfrecord_prefix : string -> string -> string;
  get_cached_info_path : string -> string -> string;
  get_cached_stats_path : string -> string -> string
}.

(** [os.path.join(a, b)] *)
Definition path_join (a b : string) : string :=
  if PyStr.startswith b "/" then b
  else if String.eqb a "" || PyStr.endswith a "/" then a +:+ b
  else a +:+ "/" +:+ b.

(** [int(a / b)]: the quotient truncated toward zero.  The division is a
    floating-point one in the source; it is exact for the magnitudes below
    [2^53] to which the statements about it are restricted. *)
Definition int_truediv (a b : Z) : Z := Z.quot a b.

(** ** PreprocessTask *)

Module PreprocessTask.

(** [self.shards] *)
Definition shards (task : Task) (split : string) : list nat :=
  seq 0 (length (list_shards task split)).

(** [ds.repeat().take(n)] for [n >= 0]: the first [n] records of the
    endless repetition of [ds], which is empty when [ds] is. *)
Fixpoint take_repeat {A} (n : nat) (rest ds : list A) : list A :=
  match n with
  | O => []
  | S n' =>
      match rest with
      | x :: rest' => x :: take_repeat n' rest' ds
      | [] =>
          match ds with
          | x :: rest' => x :: take_repeat n' rest' ds
          | [] => []
          end
      end
  end.

(** The records of one shard handed to [preprocess_precache] *)
Definition shard_input (task : Task) (split : string)
    (max_input_examples : option Z) (shard_index : nat) : list example :=
  let ds := get_dataset task split shard_index
              (length (shards task split)) in
  match max_input_examples with
  | Some m =>
      if m =? 0 then ds
      else
        let num_shard_examples :=
          int_truediv m (Z.of_nat (length (shards task split))) in
        take_repeat (Z.to_nat num_shard_examples) ds ds
  | None => ds
  end.

(** [_emit_examples(shard_index)]: the records the generator yields *)
Definition _emit_examples (task : Task) (split : string)
    (max_input_examples : option Z) (shard_index : nat) : list example :=
  preprocess_precache task
    (shard_input task split max_input_examples shard_index).

(** [expand(pipeline)]; the reshuffles leave the order unspecified *)
Definition expand (task : Task) (split : string)
    (max_input_examples : option Z) : list example :=
  Beam.FlatMap (_emit_examples task split max_input_examples)
    (shards task split).

End PreprocessTask.

(** ** GetInfo *)

Module GetInfo.

Record feature_info : Type := {
  shape : list (option nat);
  dtype_of : string
}.

(** The dictionary of [_info_dict]: [{}] or the three entries *)
Inductive info_dict : Type :=
  | EmptyDict
  | Info (num_shards : nat) (features : gmap string feature_info)
      (seqio_version : string).

(** [_info_dict(ex)] on the sample; [None] is the failed assertion. *)
Definition _info_dict (num_shards : nat) (seqio_version : string)
    (ex : list example) : option info_dict :=
  match ex with
  | [] => Some EmptyDict
  | [ex0] =>
      Some (Info num_shards
              ((fun v => {| shape := repeat None (rank v);
                            dtype_of := dtype_name (value_dtype v) |})
                 <$> ex0)
              seqio_version)
  | _ => None
  end.

End GetInfo.

(** ** The planner [run_pipeline] *)

(** What a file of the cache holds.  The record files of one split are kept
    as one entry under their common prefix. *)
Inductive file : Type :=
  | FRecords (num_shards : nat) (records : list example)
  | FInfo (info : GetInfo.info_dict)
  | FStats (stats : stats_dict)
  | FText (body : string).

(** The three sinks a split is wired to *)
Inductive sink : Type :=
  | WriteExampleTfRecord (output_path : string) (num_shards : nat)
  | GetInfoWriteJson (num_shards : nat) (output_path : string)
  | GetStatsWriteJson (features : gset string) (output_path : string).

(** An element of [completion_values]: the output of one sink of one split *)
Record write_node : Type := {
  wn_label : string;
  wn_split : string;
  wn_sink : sink
}.

(** What the loop body adds to the pipeline for one task: the sinks of its
    splits and the write of the marker, which takes their outputs. *)
Record task_graph : Type := {
  tg_task : Task;
  tg_max_input_examples : option Z;
  completion_values : list write_node;
  completed_path : string;
  completed_header : string
}.

Inductive log_record : Type :=
  | LogInfo (msg : string)
  | LogWarning (msg : string)
  | Printed (msg : string).

(** The state the loop of [run_pipeline] works on: its result list, the file
    system, the pipeline under construction and what was logged. *)
Record planner : Type := {
  output_dirs : list string;
  fs : gmap string file;
  pipeline : list task_graph;
  logs : list log_record
}.

Definition log (r : log_record) (st : planner) : planner :=
  {| output_dirs := output_dirs st; fs := fs st;
     pipeline := pipeline st; logs := logs st ++ [r] |}.

(** [path] is [dir] or lies below it. *)
Definition under (dir path : string) : bool :=
  String.eqb path dir || PyStr.startswith path (dir +:+ "/").

(** [tf.io.gfile.rmtree(dir)] *)
Definition rmtree (dir : string) (files : gmap string file) : gmap string file :=
  filter (fun kv => under dir (fst kv) = false) files.

Section Planner.

Context (U : SeqioUtils).
Context (cache_dir_arg : string) (max_input_examples : option Z)
        (overwrite : bool) (completed_file_contents : string).

Definition output_dir_of (task : Task) : string :=
  path_join cache_dir_arg (get_task_dir_from_name U (name task)).

(** The three [completion_values.append] of one iteration over the splits *)
Definition split_nodes (task : Task) (output_dir split : string)
  : list write_node :=
  let label := name task +:+ "_" +:+ split in
  let num_shards := length (PreprocessTask.shards task split) in
  [ {| wn_label := label +:+ "_write_tfrecord"; wn_split := split;
       wn_sink := WriteExampleTfRecord
                    (get_cached_tfrecord_prefix U output_dir split) num_shards |};
    {| wn_label := label +:+ "_info"; wn_split := split;
       wn_sink := GetInfoWriteJson num_shards
                    (get_cached_info_path U output_dir split) |};
    {| wn_label := label +:+ "_stats"; wn_split := split;
       wn_sink := GetStatsWriteJson (output_features task)
                    (get_cached_stats_path U output_dir split) |} ].

Definition build_task_graph (task : Task) (output_dir : string) : task_graph :=
  {| tg_task := task;
     tg_max_input_examples := max_input_examples;
     completion_values :=
       flat_map (split_nodes task output_dir) (splits task);
     completed_path := path_join output_dir "COMPLETED";
     completed_header := completed_file_contents |}.

(** From [print("Caching task ...")] to the end of the loop body *)
Definition plan_task (task : Task) (output_dir : string) (st : planner)
  : planner :=
  let st := log (Printed ("Caching task '" +:+ name task +:+ "'")) st in
  let st := {| output_dirs := output_dirs st ++ [output_dir]; fs := fs st;
               pipeline := pipeline st; logs := logs st |} in
  let st := if is_function_source task
            then log (LogWarning ("Task '" +:+ name task
                         +:+ "' using FunctionDataSource cannot be distributed."))
                   st
            else st in
  {| output_dirs := output_dirs st; fs := fs st;
     pipeline := pipeline st ++ [build_task_graph task output_dir];
     logs := logs st |}.

(** From [if not task.splits] on *)
Definition check_splits (task : Task) (output_dir : string) (st : planner)
  : planner :=
  match splits task with
  | [] => log (LogWarning ("Skipping task '" +:+ name task
                             +:+ "' with no splits.")) st
  | _ :: _ => plan_task task output_dir st
  end.

(** The body of [for task_name in task_names] *)
Definition process_task (st : planner) (task : Task) : planner :=
  if negb (supports_caching task)
  then log (LogInfo ("Skipping task that does not support caching: '"
                       +:+ name task +:+ "'")) st
  else
    let task_cache_dir := cache_dir task in
    let output_dir := output_dir_of task in
    if Py.truthy task_cache_dir && negb overwrite
    then log (LogInfo ("Skipping task '" +:+ name task
                         +:+ "', which exists in cache dir")) st
    else if Py.truthy task_cache_dir && overwrite
    then
      if bool_decide (task_cache_dir = Some output_dir)
      then
        let st := log (LogWarning
                         ("Overwriting already cached data for task '"
                            +:+ name task +:+ "' in cache_dir "
                            +:+ output_dir)) st in
        let st := {| output_dirs := output_dirs st;
                     fs := rmtree output_dir (fs st);
                     pipeline := pipeline st; logs := logs st |} in
        check_splits task output_dir st
      else
        log (LogWarning
               ("Not overwriting data in task.cache_dir since it is "
                  +:+ "different from cache_dir")) st
    else check_splits task output_dir st.

(** [seqio.TaskRegistry.get(task_name)] *)
Definition registry_get (registry : list Task) (task_name : string)
  : option Task :=
  List.find (fun task => String.eqb (name task) task_name) registry.

Fixpoint process_tasks (registry : list Task) (task_names : list string)
    (st : planner) : option planner :=
  match task_names with
  | [] => Some st
  | task_name :: rest =>
      match registry_get registry task_name with
      | Some task => process_tasks registry rest (process_task st task)
      | None => None
      end
  end.

(** [run_pipeline]: the returned [output_dirs] with the state it leaves.
    [None] is a raised exception. *)
Definition run_pipeline (registry : list Task) (files : gmap string file)
    (task_names excluded_tasks : option (list string))
  : option (list string * planner) :=
  match select_tasks (map name registry) task_names excluded_tasks with
  | Some selected =>
      match process_tasks registry selected
              {| output_dirs := []; fs := files; pipeline := []; logs := [] |}
      with
      | Some st => Some (output_dirs st, st)
      | None => None
      end
  | None => None
  end.

End Planner.

(** The condition under which the loop body reaches
    [output_dirs.append(output_dir)]: the task supports caching, it has no
    cache directory or [overwrite] is set and its cache directory is the
    requested output directory, and it has a split. *)
Definition recomputes (U : SeqioUtils) (cache_dir_arg : string)
    (overwrite : bool) (task : Task) : bool :=
  supports_caching task
  && (negb (Py.truthy (cache_dir task))
      || (overwrite
          && bool_decide
               (cache_dir task = Some (output_dir_of U cache_dir_arg task))))
  && bool_decide (splits task <> []).

(** Two planner states with the same result list, files and pipeline; the
    log is left aside. *)
Definition same_effects (st1 st2 : planner) : Prop :=
  output_dirs st1 = output_dirs st2
  /\ fs st1 = fs st2
  /\ pipeline st1 = pipeline st2.

(** The outcomes of two runs of the loop agree. *)
Definition same_outcome (o1 o2 : option planner) : Prop :=
  match o1, o2 with
  | Some st1, Some st2 => same_effects st1 st2
  | None, None => True
  | _, _ => False
  end.

(** *** An instance for the examples

    Path helpers with the directory layout of the cache, and a task with two
    shards that hold the same records. *)
Definition example_utils : SeqioUtils :=
  {| get_task_dir_from_name := PyStr.replace ":" "_";
     get_cached_tfrecord_prefix :=
       fun dir split => path_join dir (split +:+ ".tfrecord");
     get_cached_info_path :=
       fun dir split => path_join dir ("info." +:+ split +:+ ".json");
     get_cached_stats_path :=
       fun dir split => path_join dir ("stats." +:+ split +:+ ".json") |}.

Definition example_task (task_name : string) (cached_at : option string)
    (task_splits : list string) (shard_records : list example) : Task :=
  {| name := task_name;
     supports_caching := true;
     cache_dir := cached_at;
     splits := task_splits;
     output_features := {[ "inputs"; "targets" ]};
     list_shards := fun _ => ["shard-0"; "shard-1"];
     get_dataset := fun _ _ _ => shard_records;
     preprocess_precache := fun ds => ds;
     is_function_source := false |}.

Definition example_files : gmap string file :=
  {[ "cache/t/COMPLETED" := FText "";
     "cache/t/info.train.json" := FInfo GetInfo.EmptyDict;
     "elsewhere/t/COMPLETED" := FText "" ]}.

(** *** The record cap as the specification words it

    With [max_input_examples = m], every shard of the split emits
    [floor(m / shardCount)] records and the split yields [shardCount] times
    as many. *)
Definition cap_sentence (task : Task) (split : string) (m : Z) : Prop :=
  let n := length (PreprocessTask.shards task split) in
  let quota := Z.to_nat (m / Z.of_nat n) in
  (forall i, (i < n)%nat ->
     length (PreprocessTask._emit_examples task split (Some m) i) = quota)
  /\ length (PreprocessTask.expand task split (Some m)) = (n * quota)%nat.

(** ** Running the pipeline of one task

    The script fixes the graph; the runner is Beam's.  Of the runner this
    much is modelled: a sink runs at most once, completing with what its
    transform computes or failing, and the write of the marker, which takes
    the outputs of all sinks of the task as its input, completes only once
    every one of them has completed.  A trace lists the events of a run, the
    latest first. *)

#[global] Instance sink_eq_dec : EqDecision sink.
Proof. solve_decision. Defined.

#[global] Instance write_node_eq_dec : EqDecision write_node.
Proof. solve_decision. Defined.

Inductive event : Type :=
  | Done (n : write_node) (c : file)
  | Failed (n : write_node)
  | MarkerDone (body : string)
  | MarkerFailed.

(** The path a sink writes to, which is also what it outputs *)
Definition sink_path (n : write_node) : string :=
  match wn_sink n with
  | WriteExampleTfRecord output_path _ => output_path
  | GetInfoWriteJson _ output_path => output_path
  | GetStatsWriteJson _ output_path => output_path
  end.

(** [beam.combiners.Sample.FixedSizeGlobally(1)]: one list, holding one of
    the elements, or none when there is none *)
Definition sample_one (pcoll smp : list example) : Prop :=
  match pcoll with
  | [] => smp = []
  | _ :: _ => exists x, x ∈ pcoll /\ smp = [x]
  end.

Section Runner.

Context (seqio_version : string) (G : task_graph).

(** The [examples] PCollection a sink reads *)
Definition examples_of (n : write_node) : list example :=
  PreprocessTask.expand (tg_task G) (wn_split n) (tg_max_input_examples G).

(** Sink [n] completes with the file [c]. *)
Definition sink_writes (n : write_node) (c : file) : Prop :=
  match wn_sink n with
  | WriteExampleTfRecord _ num_shards =>
      exists records,
        records ≡ₚ examples_of n /\ c = FRecords num_shards records
  | GetInfoWriteJson num_shards _ =>
      exists smp info,
        sample_one (examples_of n) smp
        /\ GetInfo._info_dict num_shards seqio_version smp = Some info
        /\ c = FInfo info
  | GetStatsWriteJson features _ =>
      exists stats,
        GetStats.expand features (examples_of n) = Some stats
        /\ c = FStats stats
  end.

(** The body of the marker: the completion values are flattened, all of
    them are dropped by [beam.Filter(lambda _: False)], and what is left is
    written after the header without trailing newlines. *)
Definition marker_body : string :=
  Beam.text_file_body (completed_header G) false
    (List.filter (fun _ : string => false)
       (Beam.Flatten (map (fun n => [sink_path n]) (completion_values G)))).

Definition started (n : write_node) (tr : list event) : Prop :=
  Failed n ∈ tr \/ exists c, Done n c ∈ tr.

Definition marker_started (tr : list event) : Prop :=
  MarkerFailed ∈ tr \/ exists body, MarkerDone body ∈ tr.

Definition all_done (tr : list event) : Prop :=
  forall n, n ∈ completion_values G -> exists c, Done n c ∈ tr.

Inductive valid_trace : list event -> Prop :=
  | trace_nil : valid_trace []
  | trace_done n c tr :
      valid_trace tr -> n ∈ completion_values G -> ~ started n tr ->
      sink_writes n c -> valid_trace (Done n c :: tr)
  | trace_failed n tr :
      valid_trace tr -> n ∈ completion_values G -> ~ started n tr ->
      valid_trace (Failed n :: tr)
  | trace_marker tr :
      valid_trace tr -> all_done tr -> ~ marker_started tr ->
      valid_trace (MarkerDone marker_body :: tr)
  | trace_marker_failed tr :
      valid_trace tr -> ~ marker_started tr ->
      valid_trace (MarkerFailed :: tr).

End Runner.

(** *** Selection as the specification words it *)

(** The pattern has no alternation at its top level. *)
Definition single_branch (p : string) : Prop :=
  exists pieces, Re.pattern_branches p = Some [pieces].

(** [t] matches at least one include pattern; an empty or missing list
    matches every name ([every_name] tells which names those are). *)
Definition included_by (every_name : string -> bool)
    (task_names : option (list string)) (t : string) : bool :=
  match py_or task_names [] with
  | [] => every_name t
  | ps => existsb (fun p => Re.fullmatch p t) ps
  end.

(** [t] matches at least one exclude pattern; an empty or missing list
    matches no name, but for the names [no_name] singles out. *)
Definition excluded_by (no_name : string -> bool)
    (excluded_tasks : option (list string)) (t : string) : bool :=
  match py_or excluded_tasks [] with
  | [] => no_name t
  | ps => existsb (fun p => Re.fullmatch p t) ps
  end.

(** The selection sentence of the specification: the tasks considered are
    exactly those that match an include pattern and no exclude pattern, an
    empty include list matching every task and an empty exclude list none. *)
Definition selection_sentence (registry_names : list string)
    (task_names excluded_tasks : option (list string)) : Prop :=
  select_tasks registry_names task_names excluded_tasks
  = Some (List.filter
            (fun t => included_by (fun _ => true) task_names t
                      && negb (excluded_by (fun _ => false) excluded_tasks t))
            registry_names).

(** The statistics sentence of the specification, read at one declared
    feature [f] of one split: whenever [GetStats] produces a dictionary, it
    holds the sum and the maximum of the per-record counts under
    [f_tokens] and [f_max_tokens], and the record count under [examples]. *)
Definition stats_sentence (output_features : gset string)
    (pcoll : list example) (f : string) : Prop :=
  f ∈ output_features ->
  Forall (int_array_feature f) pcoll ->
  forall d, GetStats.expand output_features pcoll = Some d ->
    d !! (f +:+ "_tokens") = Some (Py.sum (map (tokens_in f) pcoll))
    /\ (exists m, d !! (f +:+ "_max_tokens") = Some m
                  /\ is_max_of m (map (tokens_in f) pcoll))
    /\ d !! "examples" = Some (Z.of_nat (length pcoll)).

(** *** A run for the examples

    The graph of a task with the one split "train", two shards and no
    records, and the run in which its three sinks complete one after the
    other before the marker is written. *)
Definition example_graph : task_graph :=
  build_task_graph example_utils None "done"
    (example_task "t" None ["train"] []) "cache/t".

Definition example_records_node : write_node :=
  {| wn_label := "t_train_write_tfrecord"; wn_split := "train";
     wn_sink := WriteExampleTfRecord "cache/t/train.tfrecord" 2 |}.

Definition example_info_node : write_node :=
  {| wn_label := "t_train_info"; wn_split := "train";
     wn_sink := GetInfoWriteJson 2 "cache/t/info.train.json" |}.

Definition example_stats_node : write_node :=
  {| wn_label := "t_train_stats"; wn_split := "train";
     wn_sink := GetStatsWriteJson {[ "inputs"; "targets" ]}
                  "cache/t/stats.train.json" |}.

Definition example_sink_events : list event :=
  [ Done example_stats_node (FStats {[ "examples" := 0 ]});
    Done example_info_node (FInfo GetInfo.EmptyDict);
    Done example_records_node (FRecords 2 []) ].

Definition example_trace : list event :=
  MarkerDone (marker_body example_graph) :: example_sink_events.

(** ** What [_emit_examples] does besides yielding records

    The generator imports the requested modules, logs the shard, counts it,
    and then counts every record it yields and logs some of them. *)

Inductive effect : Type :=
  | ImportModule (module : string)
  | LogShard (shard_index : nat)
  | IncrementCounter (namespace counter : string)
  | LogExample (i : Z) (ex : example)
  | YieldExample (ex : example).

(** [_import_modules(modules)] *)
Definition _import_modules (modules : list string) : list effect :=
  map ImportModule (List.filter (fun module => negb (String.eqb module "")) modules).

(** [for i, ex in enumerate(ds.as_numpy_iterator())], from index [i] on *)
Fixpoint emit_loop (namespace : string) (i : Z) (ds : list example)
  : list effect :=
  match ds with
  | [] => []
  | ex :: ds' =>
      IncrementCounter namespace "examples"
        :: (if Z.land i (i - 1) =? 0 then [LogExample i ex] else [])
        ++ YieldExample ex :: emit_loop namespace (i + 1) ds'
  end.

(** [_emit_examples(shard_index)] with its effects, in order *)
Definition emit_effects (task : Task) (split : string)
    (max_input_examples : option Z) (modules_to_import : list string)
    (shard_index : nat) : list effect :=
  let namespace := name task +:+ "_" +:+ split in
  _import_modules modules_to_import
    ++ [LogShard shard_index; IncrementCounter namespace "input-shards"]
    ++ emit_loop namespace 0
         (PreprocessTask._emit_examples task split max_input_examples
            shard_index).

(** The records a list of effects yields, and how often it counts *)
Definition yielded (effects : list effect) : list example :=
  flat_map (fun e => match e with YieldExample ex => [ex] | _ => [] end)
    effects.

Definition increments (namespace counter : string) (e : effect) : bool :=
  match e with
  | IncrementCounter namespace' counter' =>
      String.eqb namespace' namespace && String.eqb counter' counter
  | _ => false
  end.

Definition counted (namespace counter : string) (effects : list effect) : nat :=
  length (List.filter (increments namespace counter) effects).

(** ** Names that are plain as patterns *)

(** The character stands for itself in a pattern of the fragment. *)
Definition plain_char (c : ascii) : bool :=
  negb (Re.unsupported c
        || existsb (Ascii.eqb c) ["\"; "."; "*"; "|"; "("; ")"]%char).

Fixpoint plain_name (s : string) : bool :=
  match s with
  | EmptyString => true
  | String c s' => plain_char c && plain_name s'
  end.

(** * Properties *)

Example replace_ex1 : PyStr.replace "tokens" "max_tokens" "inputs_tokens" = "inputs_max_tokens".
Proof. reflexivity. Qed.
Example replace_ex2 : PyStr.replace "tokens" "max_tokens" "tokens_tokens" = "max_tokens_max_tokens".
Proof. reflexivity. Qed.

(** ** Strings *)

Section StringFacts.

Lemma app_cons (c : ascii) (s t : string) :
  String c s +:+ t = String c (s +:+ t).
Proof. reflexivity. Qed.

Lemma app_empty_l (t : string) : "" +:+ t = t.
Proof. reflexivity. Qed.

Lemma string_length_app (s t : string) :
  String.length (s +:+ t) = (String.length s + String.length t)%nat.
Proof.
  induction s as [|c s IH]; [reflexivity|].
  rewrite app_cons. simpl. now rewrite IH.
Qed.

Lemma app_inv_tail (s1 s2 t : string) : s1 +:+ t = s2 +:+ t -> s1 = s2.
Proof.
  revert s2; induction s1 as [|c s1 IH]; intros [|c' s2] H.
  - reflexivity.
  - apply (f_equal String.length) in H. rewrite !string_length_app in H. simpl in H. lia.
  - apply (f_equal String.length) in H. rewrite !string_length_app in H. simpl in H. lia.
  - rewrite !app_cons in H. injection H as -> H. f_equal. now apply IH.
Qed.

Lemma prefix_app (p s t : string) :
  String.prefix p s = true -> String.prefix p (s +:+ t) = true.
Proof.
  revert s; induction p as [|a p IH]; intros [|b s] H;
    rewrite ?app_cons; simpl in *; try reflexivity; try discriminate.
  - now destruct t.
  - destruct (ascii_dec a b); [now apply IH | discriminate].
Qed.

(** An occurrence of "tokens" at the head of [s ++ "_tokens"] lies in [s]:
    it cannot run over the underscore. *)
Lemma prefix_tokens_suffix (s : string) :
  String.prefix "tokens" (s +:+ "_tokens") = true ->
  String.prefix "tokens" s = true.
Proof.
  do 6 (destruct s as [|? s]; rewrite ?app_cons, ?app_empty_l;
        [ vm_compute; intros H; discriminate H
        | cbn [String.prefix];
          destruct (ascii_dec _ _); [|intros H; discriminate H] ]).
  intros _. now destruct s.
Qed.

Lemma contains_cons_false (old : string) (c : ascii) (s : string) :
  PyStr.contains old (String c s) = false ->
  String.prefix old (String c s) = false /\ PyStr.contains old s = false.
Proof. cbn [PyStr.contains]. intros H. now apply orb_false_iff in H. Qed.

Lemma replace_tokens_suffix (f : string) :
  PyStr.contains "tokens" f = false ->
  PyStr.replace "tokens" "max_tokens" (f +:+ "_tokens") = f +:+ "_max_tokens".
Proof.
  unfold PyStr.replace. induction f as [|c f IH]; intros H.
  - reflexivity.
  - apply contains_cons_false in H as [Hp Hc].
    rewrite !app_cons. cbn [PyStr.replace_from].
    destruct (String.prefix "tokens" (String c (f +:+ "_tokens"))) eqn:E.
    + apply (prefix_tokens_suffix (String c f)) in E. congruence.
    + f_equal. now apply IH.
Qed.

Lemma replace_tokens_inside (f : string) :
  PyStr.contains "tokens" f = true ->
  PyStr.replace "tokens" "max_tokens" (f +:+ "_tokens") <> f +:+ "_max_tokens".
Proof.
  unfold PyStr.replace. induction f as [|c f IH]; intros H.
  - discriminate.
  - rewrite !app_cons. cbn [PyStr.replace_from].
    destruct (String.prefix "tokens" (String c f)) eqn:Ep.
    + pose proof (prefix_app _ _ "_tokens" Ep) as E. rewrite app_cons in E.
      rewrite E. cbn [String.prefix] in Ep.
      destruct (ascii_dec _ c) as [<-|]; [|discriminate].
      rewrite app_cons. discriminate.
    + cbn [PyStr.contains] in H. rewrite Ep in H. cbn [orb] in H.
      destruct (String.prefix "tokens" (String c (f +:+ "_tokens"))) eqn:E.
      * apply (prefix_tokens_suffix (String c f)) in E. congruence.
      * intros [= Heq]. now apply IH.
Qed.

End StringFacts.

(** ** The statistics aggregator *)

Section StatsFacts.

Implicit Types (d acc m : stats_dict) (ds : list stats_dict).
Implicit Types (kvs : list (string * Z)) (exs : list example).

Lemma merge_loop_is_Some acc ds :
  is_Some (GetStats.merge_loop acc ds) <->
  Forall (GetStats.disjoint_keys acc) ds /\ ForallOrdPairs GetStats.disjoint_keys ds.
Proof.
  revert acc; induction ds as [|d ds IH]; intros acc; cbn [GetStats.merge_loop].
  - split; [intros _; split; constructor | intros _; eauto].
  - case_bool_decide as Hd.
    + rewrite IH. apply disjoint_intersection_L in Hd.
      assert (Hsplit : Forall (GetStats.disjoint_keys (d ∪ acc)) ds <->
                       Forall (GetStats.disjoint_keys d) ds /\ Forall (GetStats.disjoint_keys acc) ds).
      { rewrite !Forall_forall. unfold GetStats.disjoint_keys. split.
        - intros H. split; intros x Hx; specialize (H x Hx);
            rewrite dom_union_L in H; apply disjoint_union_l in H; tauto.
        - intros [H1 H2] x Hx. rewrite dom_union_L.
          apply disjoint_union_l. auto. }
      rewrite Hsplit. split.
      * intros [[Hd1 Hacc] Hp]. split; constructor; assumption.
      * intros [Hacc Hp]. inversion Hacc; subst. inversion Hp; subst. tauto.
    + split; [intros [? [=]] |].
      intros [Hacc _]. inversion Hacc as [|? ? Hd' _]; subst.
      unfold GetStats.disjoint_keys in Hd'. apply disjoint_intersection_L in Hd'.
      contradiction.
Qed.

Lemma merge_loop_sub acc ds m :
  GetStats.merge_loop acc ds = Some m ->
  acc ⊆ m /\ Forall (fun d => d ⊆ m) ds.
Proof.
  revert acc; induction ds as [|d ds IH]; intros acc; cbn [GetStats.merge_loop].
  - intros [= ->]. split; [reflexivity | constructor].
  - case_bool_decide as Hd; [|discriminate].
    intros Hm. apply IH in Hm as [Hsub Hall].
    apply disjoint_intersection_L, map_disjoint_dom in Hd.
    split; [|constructor; [|assumption]].
    + etransitivity; [|exact Hsub]. apply map_union_subseteq_r. now symmetry.
    + etransitivity; [|exact Hsub]. apply map_union_subseteq_l.
Qed.

Lemma merge_dicts_lookup ds m d k v :
  GetStats._merge_dicts ds = Some m -> d ∈ ds -> d !! k = Some v ->
  m !! k = Some v.
Proof.
  intros Hm Hin Hk. apply merge_loop_sub in Hm as [_ Hall].
  rewrite Forall_forall in Hall. specialize (Hall d Hin).
  eapply lookup_weaken; eassumption.
Qed.

(** Singleton dictionaries with pairwise distinct keys merge. *)
Lemma merge_loop_singletons acc kvs :
  NoDup (map fst kvs) -> Forall (fun kv => acc !! fst kv = None) kvs ->
  is_Some (GetStats.merge_loop acc (map GetStats.to_dict kvs)).
Proof.
  intros Hnd Hfresh. apply merge_loop_is_Some. split.
  - apply Forall_map. eapply Forall_impl; [exact Hfresh|].
    intros [k v] Hk. unfold GetStats.disjoint_keys, GetStats.to_dict.
    cbn [fst snd] in *. rewrite dom_singleton_L.
    apply not_elem_of_dom in Hk. now apply disjoint_singleton_r.
  - clear Hfresh. induction kvs as [|[k v] kvs IH]; cbn [map]; [constructor|].
    cbn [map fst] in Hnd. apply NoDup_cons in Hnd as [Hk Hnd].
    constructor; [|now apply IH].
    apply Forall_map, Forall_forall. intros [k' v'] Hin.
    unfold GetStats.disjoint_keys, GetStats.to_dict; cbn [fst snd].
    rewrite !dom_singleton_L. apply disjoint_singleton_l.
    rewrite elem_of_singleton. intros ->.
    apply Hk. apply list_elem_of_fmap. now exists (k', v').
Qed.

End StatsFacts.

Section TokenCounts.

Implicit Types (kvs : list (string * Z)) (exs : list example) (f g k : string).

Lemma sum_indicator (data : list Z) :
  Py.sum (map (fun x => if 1 <? x then 1 else 0) data)
  = Z.of_nat (length (filter (fun x => 1 < x) data)).
Proof.
  induction data as [|x data IH]; [reflexivity|].
  cbn [map Py.sum foldr]. fold (Py.sum (map (fun x => if 1 <? x then 1 else 0) data)).
  rewrite IH, filter_cons. destruct (Z.ltb_spec 1 x); case_decide; try lia.
  cbn [length]. lia.
Qed.

Lemma count_int_array f ex :
  int_array_feature f ex ->
  GetStats._count f ex = [(f +:+ "_tokens", tokens_in f ex)].
Proof.
  intros (dt & data & Hl & Hdt). unfold GetStats._count, tokens_in.
  rewrite Hl, Hdt. now rewrite sum_indicator.
Qed.

Lemma count_key g ex (kv : string * Z) :
  kv ∈ GetStats._count g ex -> fst kv = g +:+ "_tokens".
Proof.
  unfold GetStats._count.
  destruct (ex !! g) as [[dt data|]|]; try (intros H; now inversion H).
  destruct (GetStats.is_int32_or_int64 dt); intros H; [|now inversion H].
  apply list_elem_of_singleton in H. now subst.
Qed.

Lemma count_tokens_key g exs (kv : string * Z) :
  kv ∈ GetStats._count_tokens exs g -> fst kv = g +:+ "_tokens".
Proof.
  unfold GetStats._count_tokens, Beam.FlatMap. rewrite list_elem_of_In, in_flat_map.
  intros (ex & _ & Hin). apply list_elem_of_In in Hin. eapply count_key; eauto.
Qed.

Lemma values_of_app k kvs1 kvs2 :
  Beam.values_of k (kvs1 ++ kvs2) = Beam.values_of k kvs1 ++ Beam.values_of k kvs2.
Proof. unfold Beam.values_of. now rewrite filter_app, map_app. Qed.

Lemma values_of_other k kvs :
  Forall (fun kv => fst kv <> k) kvs -> Beam.values_of k kvs = [].
Proof.
  unfold Beam.values_of. induction 1 as [|kv kvs Hkv _ IH]; [reflexivity|].
  rewrite filter_cons. now case_decide.
Qed.

Lemma values_of_count_tokens f exs :
  Forall (int_array_feature f) exs ->
  Beam.values_of (f +:+ "_tokens") (GetStats._count_tokens exs f)
  = map (tokens_in f) exs.
Proof.
  unfold GetStats._count_tokens, Beam.FlatMap.
  induction 1 as [|ex exs Hex _ IH]; [reflexivity|].
  cbn [flat_map map]. rewrite values_of_app, IH, (count_int_array _ _ Hex).
  unfold Beam.values_of at 1. rewrite filter_cons. cbn [fst].
  case_decide; [reflexivity | contradiction].
Qed.

Lemma values_of_count_tokens_other f g exs :
  f <> g -> Beam.values_of (f +:+ "_tokens") (GetStats._count_tokens exs g) = [].
Proof.
  intros Hne. apply values_of_other, Forall_forall. intros kv Hin Heq.
  apply count_tokens_key in Hin. rewrite Hin in Heq.
  apply app_inv_tail in Heq. congruence.
Qed.

Lemma values_of_flatten f exs (l : list string) :
  NoDup l -> f ∈ l -> Forall (int_array_feature f) exs ->
  Beam.values_of (f +:+ "_tokens")
    (Beam.Flatten (map (GetStats._count_tokens exs) l))
  = map (tokens_in f) exs.
Proof.
  unfold Beam.Flatten. intros Hnd Hin Hall.
  induction Hnd as [|g l Hg Hnd IH]; [now inversion Hin|].
  cbn [map concat]. rewrite values_of_app.
  destruct (decide (f = g)) as [<-|Hne].
  - rewrite values_of_count_tokens by assumption.
    rewrite values_of_other; [now rewrite app_nil_r|].
    apply Forall_forall. intros kv Hkv Heq.
    apply list_elem_of_In, in_concat in Hkv as (kvs & Hkvs & Hkv).
    apply in_map_iff in Hkvs as (h & <- & Hh).
    apply list_elem_of_In, count_tokens_key in Hkv. rewrite Hkv in Heq.
    apply app_inv_tail in Heq. subst h. apply Hg. now apply list_elem_of_In.
  - rewrite values_of_count_tokens_other by assumption. cbn [app].
    apply IH. apply elem_of_cons in Hin as [?|?]; [contradiction | assumption].
Qed.

Lemma values_of_token_counts feats f exs :
  f ∈ feats -> Forall (int_array_feature f) exs ->
  Beam.values_of (f +:+ "_tokens") (GetStats.token_counts feats exs)
  = map (tokens_in f) exs.
Proof.
  intros Hin Hall. apply values_of_flatten; [apply NoDup_elements | | assumption].
  now apply elem_of_elements.
Qed.

Lemma token_counts_key feats exs (kv : string * Z) :
  kv ∈ GetStats.token_counts feats exs ->
  exists g, g ∈ feats /\ fst kv = g +:+ "_tokens".
Proof.
  unfold GetStats.token_counts, Beam.Flatten. intros Hkv.
  apply list_elem_of_In, in_concat in Hkv as (kvs & Hkvs & Hkv).
  apply in_map_iff in Hkvs as (g & <- & Hg).
  exists g. split; [now apply elem_of_elements, list_elem_of_In|].
  apply (count_tokens_key g exs). now apply list_elem_of_In.
Qed.

Lemma token_counts_has_key feats f ex exs :
  f ∈ feats -> int_array_feature f ex -> ex ∈ exs ->
  (f +:+ "_tokens") ∈ map fst (GetStats.token_counts feats exs).
Proof.
  intros Hf Hex Hin. apply list_elem_of_In, in_map_iff.
  exists (f +:+ "_tokens", tokens_in f ex). split; [reflexivity|].
  unfold GetStats.token_counts, Beam.Flatten. apply in_concat.
  exists (GetStats._count_tokens exs f). split.
  - apply in_map, list_elem_of_In. now apply elem_of_elements.
  - unfold GetStats._count_tokens, Beam.FlatMap. apply in_flat_map.
    exists ex. split; [now apply list_elem_of_In|].
    rewrite (count_int_array _ _ Hex). now left.
Qed.

Lemma CombinePerKey_elem fn kvs k :
  k ∈ map fst kvs -> (k, fn (Beam.values_of k kvs)) ∈ Beam.CombinePerKey fn kvs.
Proof.
  intros Hk. unfold Beam.CombinePerKey. apply list_elem_of_In, in_map_iff.
  exists k. split; [reflexivity|]. now apply list_elem_of_In, elem_of_remove_dups.
Qed.

Lemma CombinePerKey_keys fn kvs :
  map fst (Beam.CombinePerKey fn kvs) = remove_dups (map fst kvs).
Proof.
  unfold Beam.CombinePerKey. rewrite map_map. cbn [fst]. apply map_id.
Qed.

Lemma max_spec (xs : list Z) : xs <> [] -> is_max_of (Py.max xs) xs.
Proof.
  destruct xs as [|x xs]; [congruence | intros _]. unfold Py.max, is_max_of.
  assert (H : forall a, (fold_left Z.max xs a = a \/ fold_left Z.max xs a ∈ xs)
                        /\ a <= fold_left Z.max xs a
                        /\ Forall (fun y => y <= fold_left Z.max xs a) xs).
  { induction xs as [|y xs IH]; intros a; cbn [fold_left].
    - split; [now left | split; [lia | constructor]].
    - destruct (IH (Z.max a y)) as (Hm & Hle & Hall).
      split; [|split; [lia | constructor; [lia | assumption]]].
      destruct Hm as [Hm|Hm]; [|right; now right].
      destruct (Z.max_spec a y) as [[_ E]|[_ E]]; rewrite E in Hm |- *.
      + right. rewrite Hm. now left.
      + now left. }
  destruct (H x) as (Hm & Hle & Hall). split.
  - destruct Hm as [->|Hm]; [now left | now right].
  - constructor; assumption.
Qed.

End TokenCounts.

Section GetStatsFacts.

Implicit Types (feats : gset string) (exs : list example) (f k : string).

Lemma expand_unfold feats exs :
  GetStats.expand feats exs
  = GetStats._merge_dicts
      (map GetStats.to_dict
         (("examples", Z.of_nat (length exs))
            :: Beam.CombinePerKey Py.sum (GetStats.token_counts feats exs)
            ++ map GetStats.rename_max_stat
                 (Beam.CombinePerKey Py.max (GetStats.token_counts feats exs)))).
Proof.
  unfold GetStats.expand, Beam.Flatten, GetStats.example_counts,
    GetStats.total_tokens, GetStats.max_tokens, Beam.CountGlobally.
  cbn [concat map]. now rewrite app_nil_r, map_app.
Qed.

Lemma expand_lookup feats exs d k v :
  GetStats.expand feats exs = Some d ->
  (k, v) ∈ ("examples", Z.of_nat (length exs))
            :: Beam.CombinePerKey Py.sum (GetStats.token_counts feats exs)
            ++ map GetStats.rename_max_stat
                 (Beam.CombinePerKey Py.max (GetStats.token_counts feats exs)) ->
  d !! k = Some v.
Proof.
  rewrite expand_unfold. intros Hd Hin.
  eapply (merge_dicts_lookup _ _ (GetStats.to_dict (k, v))); [exact Hd | |].
  - apply list_elem_of_In, in_map, list_elem_of_In, Hin.
  - unfold GetStats.to_dict. cbn [fst snd]. apply lookup_singleton_eq.
Qed.

Lemma NoDup_map_inj {A B} (g : A -> B) (l : list A) (x y : A) :
  NoDup (map g l) -> x ∈ l -> y ∈ l -> g x = g y -> x = y.
Proof.
  induction l as [|a l IH]; cbn [map]; intros Hnd Hx Hy Heq; [now inversion Hx|].
  apply NoDup_cons in Hnd as [Ha Hnd].
  apply elem_of_cons in Hx as [->|Hx]; apply elem_of_cons in Hy as [->|Hy].
  - reflexivity.
  - exfalso. apply Ha. rewrite Heq. now apply list_elem_of_In, in_map, list_elem_of_In.
  - exfalso. apply Ha. rewrite <- Heq. now apply list_elem_of_In, in_map, list_elem_of_In.
  - now apply IH.
Qed.

Lemma expand_keys_NoDup feats exs :
  NoDup (GetStats.statistic_keys feats) ->
  NoDup (map fst
           (("examples", Z.of_nat (length exs))
              :: Beam.CombinePerKey Py.sum (GetStats.token_counts feats exs)
              ++ map GetStats.rename_max_stat
                   (Beam.CombinePerKey Py.max (GetStats.token_counts feats exs)))).
Proof.
  set (r := PyStr.replace "tokens" "max_tokens").
  set (F := map (fun f => f +:+ "_tokens") (elements feats)).
  set (A := remove_dups (map fst (GetStats.token_counts feats exs))).
  assert (HF : GetStats.statistic_keys feats = "examples" :: F ++ map r F).
  { unfold GetStats.statistic_keys, F, r. now rewrite map_map. }
  rewrite HF. clear HF. intros Hnd.
  assert (HK : map fst
           (("examples", Z.of_nat (length exs))
              :: Beam.CombinePerKey Py.sum (GetStats.token_counts feats exs)
              ++ map GetStats.rename_max_stat
                   (Beam.CombinePerKey Py.max (GetStats.token_counts feats exs)))
          = "examples" :: A ++ map r A).
  { cbn [map fst]. rewrite map_app, map_map. f_equal. f_equal.
    - apply CombinePerKey_keys.
    - unfold GetStats.rename_max_stat. cbn [fst].
      rewrite <- (map_map fst r). now rewrite CombinePerKey_keys. }
  rewrite HK. clear HK.
  assert (HAF : forall k, k ∈ A -> k ∈ F).
  { intros k Hk. apply elem_of_remove_dups, list_elem_of_In, in_map_iff in Hk
      as (kv & <- & Hkv).
    apply list_elem_of_In, token_counts_key in Hkv as (g & Hg & ->).
    apply list_elem_of_In, in_map_iff. exists g.
    split; [reflexivity | now apply list_elem_of_In, elem_of_elements]. }
  assert (HrAF : forall k, k ∈ map r A -> k ∈ map r F).
  { intros k Hk. apply list_elem_of_In, in_map_iff in Hk as (a & <- & Ha).
    apply list_elem_of_In, in_map, list_elem_of_In, HAF, list_elem_of_In, Ha. }
  apply NoDup_cons in Hnd as [Hex Hnd].
  apply NoDup_app in Hnd as (HndF & Hdisj & HndrF).
  apply NoDup_cons. split.
  - intros Hin. apply Hex. apply elem_of_app in Hin as [Hin|Hin];
      apply elem_of_app; [left; auto | right; auto].
  - apply NoDup_app. split; [apply NoDup_remove_dups|]. split.
    + intros k Hk Hrk. exact (Hdisj k (HAF k Hk) (HrAF k Hrk)).
    + apply (NoDup_fmap_2_strong r); [|apply NoDup_remove_dups].
      intros x y Hx Hy. apply (NoDup_map_inj r F); auto.
Qed.

Lemma rename_max_stat_plain f (v : Z) :
  PyStr.contains "tokens" f = false ->
  GetStats.rename_max_stat (f +:+ "_tokens", v) = (f +:+ "_max_tokens", v).
Proof.
  intros Hf. unfold GetStats.rename_max_stat. cbn [fst snd].
  now rewrite replace_tokens_suffix.
Qed.

End GetStatsFacts.

(** ** Claims about the statistics *)






(** C8: [_merge_dicts] succeeds exactly when no two of the dictionaries it
    is given share a key, and otherwise fails on its assertion; when it
    succeeds every entry of every input is in the result with its own value;
    and in [GetStats] the assertion does not fire for feature names whose
    statistic keys are pairwise distinct. *)
Theorem merge_dicts_asserts_disjoint_keys :
  (forall ds, is_Some (GetStats._merge_dicts ds)
              <-> ForallOrdPairs GetStats.disjoint_keys ds)
  /\ (forall ds, GetStats._merge_dicts ds = None
                 <-> ~ ForallOrdPairs GetStats.disjoint_keys ds)
  /\ (forall ds m d, GetStats._merge_dicts ds = Some m -> d ∈ ds -> d ⊆ m)
  /\ (forall feats exs, NoDup (GetStats.statistic_keys feats) ->
        is_Some (GetStats.expand feats exs)).
Proof.
  assert (H1 : forall ds, is_Some (GetStats._merge_dicts ds)
                          <-> ForallOrdPairs GetStats.disjoint_keys ds).
  { intros ds. unfold GetStats._merge_dicts. rewrite merge_loop_is_Some.
    split; [tauto|]. intros Hp. split; [|assumption].
    apply Forall_forall. intros d _. unfold GetStats.disjoint_keys.
    rewrite dom_empty_L. apply disjoint_empty_l. }
  split; [exact H1|]. split; [|split].
  - intros ds. rewrite <- H1, <- eq_None_not_Some. reflexivity.
  - intros ds m d Hm Hin. apply merge_loop_sub in Hm as [_ Hall].
    rewrite Forall_forall in Hall. now apply Hall.
  - intros feats exs Hnd. rewrite expand_unfold.
    apply merge_loop_singletons; [now apply expand_keys_NoDup|].
    apply Forall_forall. intros kv _. apply lookup_empty.
Qed.

Lemma merge_dicts_asserts_disjoint_keys_witness :
  NoDup (GetStats.statistic_keys {[ "inputs"; "targets" ]})
  /\ is_Some (GetStats.expand {[ "inputs"; "targets" ]}
                [ {[ "inputs" := NdArray int32 [3; 4; 1];
                     "targets" := NdArray int64 [5; 1] ]} ]).
Proof.
  assert (Hnd : NoDup (GetStats.statistic_keys {[ "inputs"; "targets" ]})).
  { apply (bool_decide_unpack _). vm_compute. exact I. }
  split; [exact Hnd|].
  apply (proj2 (proj2 (proj2 merge_dicts_asserts_disjoint_keys))). exact Hnd.
Defined.

(** ** The regular-expression fragment *)

Section LexFacts.

Lemma lex_from_app (b : bool) (s1 s2 : string) (ts1 : list Re.token) :
  Re.lex_from b s1 = Some ts1 ->
  Re.lex_from b (s1 +:+ s2)
  = match Re.lex_from false s2 with
    | Some ts2 => Some (ts1 ++ ts2)
    | None => None
    end.
Proof.
  revert b ts1. induction s1 as [|c s1 IH]; intros b ts1 H.
  - destruct b; [discriminate|]. injection H as <-. rewrite app_empty_l.
    now destruct (Re.lex_from false s2).
  - rewrite app_cons. cbn [Re.lex_from] in H |- *. destruct b.
    + destruct (Ascii.eqb c "Z"); [|discriminate].
      destruct (Re.lex_from false s1) as [ts|] eqn:E; [|discriminate].
      injection H as <-. rewrite (IH _ _ E).
      now destruct (Re.lex_from false s2).
    + destruct (Ascii.eqb c "\"); [now apply IH|].
      destruct (Re.unsupported c); [discriminate|].
      destruct (Re.lex_from false s1) as [ts|] eqn:E; [|discriminate].
      injection H as <-. rewrite (IH _ _ E).
      now destruct (Re.lex_from false s2).
Qed.

Lemma lex_app (s1 s2 : string) (ts1 ts2 : list Re.token) :
  Re.lex s1 = Some ts1 -> Re.lex s2 = Some ts2 ->
  Re.lex (s1 +:+ s2) = Some (ts1 ++ ts2).
Proof.
  unfold Re.lex. intros H1 H2. now rewrite (lex_from_app _ _ s2 _ H1), H2.
Qed.

End LexFacts.

Section ParseFacts.

Import Re.

Implicit Types (st : list frame) (ts : list token) (D : list (list regex)).

Lemma run_app ts1 ts2 st :
  run (ts1 ++ ts2) st
  = match run ts1 st with
    | Some st' => run ts2 st'
    | None => None
    end.
Proof.
  revert st. induction ts1 as [|t ts1 IH]; intros st; [reflexivity|].
  cbn [app run]. destruct (step st t); [apply IH | reflexivity].
Qed.

Lemma step_graft D S st t st' :
  step st t = Some st' ->
  step (graft D S st) t = Some (graft D S st') /\ st' <> [].
Proof.
  destruct st as [|f [|g rest]]; [discriminate| |].
  - destruct t; cbn; try (intros [= <-]; split; [reflexivity | discriminate]).
    + destruct (rep f); [|discriminate].
      destruct (star_last (cur f)); [|discriminate].
      intros [= <-]. split; [reflexivity | discriminate].
    + intros [= <-]. split; [|discriminate]. unfold branches_of, prefix_done.
      cbn. now rewrite <- app_assoc.
    + discriminate.
  - destruct t; cbn [step graft];
      try (intros [= <-]; split; [reflexivity | discriminate]).
    + destruct (rep f); [|discriminate].
      destruct (star_last (cur f)); [|discriminate].
      intros [= <-]. split; [reflexivity | discriminate].
    + intros [= <-]. split; [|discriminate]. now destruct rest.
Qed.

Lemma run_graft D S ts st st' :
  st <> [] -> run ts st = Some st' ->
  run ts (graft D S st) = Some (graft D S st').
Proof.
  revert st. induction ts as [|t ts IH]; intros st Hne H; cbn [run] in *.
  - now injection H as <-.
  - destruct (step st t) as [st1|] eqn:E; [|discriminate].
    apply (step_graft D S) in E as [-> Hne1]. now apply IH.
Qed.

Lemma run_in_group D S ts (f : frame) :
  run ts [empty_frame] = Some [f] ->
  run ts (Frame D [] false :: S) = Some (prefix_done D f :: S).
Proof.
  intros H. apply (run_graft D S) in H; [|discriminate].
  cbn [graft] in H. unfold prefix_done at 1 in H. cbn in H.
  now rewrite app_nil_r in H.
Qed.

End ParseFacts.

Section JoinFacts.

Import Re.

Implicit Types (ts : list token) (D : list (list regex)) (f : frame).

Lemma anchor_snoc D (c : list regex) : anchor (D ++ [c]) = D ++ [c ++ [EndZ]].
Proof.
  induction D as [|d D IH]; [reflexivity|].
  cbn [app anchor]. rewrite IH. now destruct D.
Qed.

Lemma anchor_branches_of f :
  anchor (branches_of f) = done_ f ++ [cur f ++ [EndZ]].
Proof. apply anchor_snoc. Qed.

Lemma lex_join (ps : list string) (tss : list (list token)) :
  Forall2 (fun p ts => lex p = Some ts) ps tss ->
  lex (String.concat "\Z|" ps) = Some (join_tokens tss).
Proof.
  induction 1 as [|p ts ps tss Hp Hps IH]; [reflexivity|].
  destruct Hps as [|p' ts' ps' tss' Hp' Hps'].
  - exact Hp.
  - change (String.concat "\Z|" (p :: p' :: ps'))
      with (p +:+ "\Z|" +:+ String.concat "\Z|" (p' :: ps')).
    change (join_tokens (ts :: ts' :: tss'))
      with (ts ++ [TEndZ; TBar] ++ join_tokens (ts' :: tss')).
    apply lex_app; [exact Hp|].
    apply (lex_app "\Z|" _ [TEndZ; TBar]); [reflexivity | exact IH].
Qed.

Lemma lex_regex_source (ps : list string) (tss : list (list token)) :
  Forall2 (fun p ts => lex p = Some ts) ps tss ->
  lex (regex_source ps) = Some (TLParen :: join_tokens tss ++ [TEndZ; TRParen]).
Proof.
  intros H. unfold regex_source.
  apply (lex_app "(" _ [TLParen]); [reflexivity|].
  apply lex_app; [now apply lex_join | reflexivity].
Qed.

(** Reading the joined patterns and the last [\Z] inside the outer group
    leaves the anchored branches of all patterns, in order. *)
Lemma run_join (tss : list (list token)) (fs : list frame) :
  Forall2 (fun ts f => run ts [empty_frame] = Some [f]) tss fs ->
  tss <> [] ->
  forall D S, exists f',
    run (join_tokens tss ++ [TEndZ]) (Frame D [] false :: S) = Some (f' :: S)
    /\ branches_of f'
       = D ++ concat (map (fun f => anchor (branches_of f)) fs).
Proof.
  induction 1 as [|ts f tss fs Hf Hrest IH]; [congruence|]. intros _ D S.
  destruct Hrest as [|ts' f2 tss' fs' Hf2 Hrest'].
  - cbn [join_tokens]. rewrite run_app, (run_in_group D S ts f Hf).
    eexists. split; [reflexivity|].
    cbn [map concat]. rewrite app_nil_r, anchor_branches_of.
    unfold branches_of, push, prefix_done. cbn. now rewrite <- app_assoc.
  - destruct (IH ltac:(discriminate) (D ++ anchor (branches_of f)) S)
      as (f' & Hrun & Hbr).
    exists f'. split.
    + change (join_tokens (ts :: ts' :: tss'))
        with (ts ++ [TEndZ; TBar] ++ join_tokens (ts' :: tss')).
      rewrite <- !app_assoc, run_app, (run_in_group D S ts f Hf).
      cbn [app run step]. rewrite <- Hrun. f_equal. f_equal. f_equal.
      rewrite anchor_branches_of. unfold branches_of, push, prefix_done. cbn.
      now rewrite <- app_assoc.
    + rewrite Hbr. cbn [map concat]. now rewrite <- app_assoc.
Qed.

Lemma pattern_branches_inv (p : string) (bs : list (list regex)) :
  pattern_branches p = Some bs ->
  exists ts f, lex p = Some ts /\ run ts [empty_frame] = Some [f]
               /\ bs = branches_of f.
Proof.
  unfold pattern_branches. destruct (lex p) as [ts|]; [|discriminate].
  destruct (run ts [empty_frame]) as [[|f [|? ?]]|] eqn:E; try discriminate.
  intros [= <-]. now exists ts, f.
Qed.

(** The joined expression of non-empty [ps] is one group holding the
    anchored branches of each pattern. *)
Lemma branches_regex_source (ps : list string) (bss : list (list (list regex))) :
  Forall2 (fun p bs => pattern_branches p = Some bs) ps bss ->
  ps <> [] ->
  pattern_branches (regex_source ps)
  = Some [[alts (map seqs (concat (map anchor bss)))]].
Proof.
  intros H Hne.
  assert (Hex : exists tss fs,
             Forall2 (fun p ts => lex p = Some ts) ps tss
             /\ Forall2 (fun ts f => run ts [empty_frame] = Some [f]) tss fs
             /\ bss = map branches_of fs).
  { clear Hne. induction H as [|p bs ps bss Hp _ IH].
    - exists [], []. repeat split; constructor.
    - destruct IH as (tss & fs & H1 & H2 & ->).
      apply pattern_branches_inv in Hp as (ts & f & Hl & Hr & ->).
      exists (ts :: tss), (f :: fs). repeat split; now constructor. }
  destruct Hex as (tss & fs & Hlex & Hrun & ->).
  assert (Htss : tss <> []).
  { intros ->. inversion Hlex. congruence. }
  destruct (run_join tss fs Hrun Htss [] [empty_frame]) as (f' & Hr & Hbr).
  unfold pattern_branches. rewrite (lex_regex_source ps tss Hlex).
  cbn [run step].
  change (join_tokens tss ++ [TEndZ; TRParen])
    with (join_tokens tss ++ [TEndZ] ++ [TRParen]).
  rewrite app_assoc, run_app.
  change (Frame [] [] false) with empty_frame in Hr. unfold empty_frame in *.
  rewrite Hr. cbn [run step]. unfold branches_of at 1, push. cbn [done_ cur app].
  unfold close. rewrite Hbr. cbn [app]. now rewrite map_map.
Qed.

End JoinFacts.

Section MatchFacts.

Import Re.

Implicit Types (r : regex) (s t : string).

Lemma nonempty_app {A} (l1 l2 : list A) :
  nonempty (l1 ++ l2) = nonempty l1 || nonempty l2.
Proof. now destruct l1. Qed.

Lemma nonempty_flat_map {A B} (g : A -> list B) (l : list A) :
  nonempty (flat_map g l) = existsb (fun x => nonempty (g x)) l.
Proof.
  induction l as [|x l IH]; [reflexivity|].
  cbn [flat_map existsb]. now rewrite nonempty_app, IH.
Qed.

Lemma existsb_fmap {A B} (g : A -> B) (h : B -> bool) (l : list A) :
  existsb h (map g l) = existsb (fun x => h (g x)) l.
Proof. induction l as [|x l IH]; [reflexivity|]. cbn. now rewrite IH. Qed.

Lemma flat_map_unit {A} (l : list A) : flat_map (fun x => [x]) l = l.
Proof. induction l as [|x l IH]; [reflexivity|]. cbn. now rewrite IH. Qed.

Lemma match_nonempty r s : match_ r s = nonempty (ends r s).
Proof. reflexivity. Qed.

Lemma ends_alts (rs : list regex) s :
  ends (alts rs) s = flat_map (fun r => ends r s) rs.
Proof.
  induction rs as [|r rs IH]; [reflexivity|].
  cbn [alts fold_right ends flat_map]. now rewrite <- IH.
Qed.

Lemma match_alts (rs : list regex) s :
  match_ (alts rs) s = existsb (fun r => match_ r s) rs.
Proof. now rewrite match_nonempty, ends_alts, nonempty_flat_map. Qed.

Lemma ends_seqs_app (l1 l2 : list regex) s :
  ends (seqs (l1 ++ l2)) s = flat_map (ends (seqs l2)) (ends (seqs l1) s).
Proof.
  revert s. induction l1 as [|r l1 IH]; intros s.
  - cbn. now rewrite app_nil_r.
  - cbn [app seqs fold_right ends].
    change (fold_right Seq Eps (l1 ++ l2)) with (seqs (l1 ++ l2)).
    change (fold_right Seq Eps l1) with (seqs l1).
    rewrite flat_map_concat_map, (map_ext _ _ (fun a => IH a)).
    rewrite <- flat_map_concat_map.
    induction (ends r s) as [|x l IHl]; [reflexivity|].
    cbn [flat_map]. now rewrite flat_map_app, IHl.
Qed.

Lemma ends_wrapped_group r s : ends (alts (map seqs [[r]])) s = ends r s.
Proof.
  cbn [map seqs alts fold_right ends]. rewrite app_nil_r.
  apply flat_map_unit.
Qed.

End MatchFacts.

Section SelectionFacts.

Import Re.

Implicit Types (p t : string) (ps : list string).

(** The compiled joined expression selects what its patterns select. *)
Lemma compile_regex_source ps (bss : list (list (list regex))) :
  Forall2 (fun p bs => pattern_branches p = Some bs) ps bss ->
  ps <> [] ->
  exists R, compile (regex_source ps) = Some R
            /\ forall t, match_ R t
                         = existsb (fun bs => match_ (alts (map seqs (anchor bs))) t) bss.
Proof.
  intros H Hne. unfold compile. rewrite (branches_regex_source ps bss H Hne).
  eexists. split; [reflexivity|]. intros t.
  rewrite match_nonempty, ends_wrapped_group, <- match_nonempty, match_alts.
  induction bss as [|bs bss IH] in |- *; [reflexivity|].
  cbn [map concat existsb]. rewrite map_app, existsb_app.
  f_equal; [|exact IH]. now rewrite match_alts, existsb_fmap.
Qed.

Lemma selects_branches p (bs : list (list regex)) t :
  pattern_branches p = Some bs ->
  selects p t = match_ (alts (map seqs (anchor bs))) t.
Proof.
  intros H. unfold selects.
  destruct (compile_regex_source [p] [bs]) as (R & -> & HR);
    [repeat constructor; exact H | discriminate |].
  rewrite HR. cbn [existsb]. apply orb_false_r.
Qed.

(** For a pattern without alternation the appended [\Z] anchors the whole
    pattern: it selects exactly the names it matches entirely. *)
Lemma selects_single_branch p t :
  single_branch p -> selects p t = fullmatch p t.
Proof.
  intros [c Hc]. rewrite (selects_branches p [c] t Hc).
  unfold fullmatch, compile. rewrite Hc.
  rewrite match_nonempty, !ends_alts. cbn [anchor map flat_map].
  rewrite !app_nil_r, ends_seqs_app.
  induction (ends (seqs c) t) as [|s l IH]; [reflexivity|].
  cbn [flat_map existsb]. rewrite nonempty_app, IH. f_equal.
  now destruct s.
Qed.

Lemma compile_single_branches ps :
  Forall single_branch ps -> ps <> [] ->
  exists R, compile (regex_source ps) = Some R
            /\ forall t, match_ R t = existsb (fun p => fullmatch p t) ps.
Proof.
  intros Hall Hne.
  assert (Hex : exists bss,
             Forall2 (fun p bs => pattern_branches p = Some bs) ps bss).
  { clear Hne. induction Hall as [|p ps [c Hc] _ [bss IH]].
    - exists []. constructor.
    - exists ([c] :: bss). now constructor. }
  destruct Hex as [bss Hbss].
  destruct (compile_regex_source ps bss Hbss Hne) as (R & HR & Hm).
  exists R. split; [exact HR|]. intros t. rewrite Hm. clear HR Hm Hne.
  induction Hbss as [|p bs ps bss Hp _ IH]; [reflexivity|].
  apply Forall_cons in Hall as [Hs Hall]. cbn [existsb].
  rewrite (IH Hall), <- (selects_single_branch p t Hs).
  now rewrite (selects_branches p bs t Hp).
Qed.

(** The default patterns: [.*] matches the names without a line feed,
    the empty join matches the empty name only. *)
Lemma star_any_reaches_end t :
  existsb (String.eqb "") (star_iter (ends Any) (String.length t) t)
  = one_line t.
Proof.
  unfold one_line. induction t as [|c t IH]; [reflexivity|].
  cbn [String.length star_iter ends existsb String.eqb PyStr.contains
         String.prefix orb].
  destruct (Ascii.eqb_spec c newline) as [->|Hne].
  - cbn [List.filter flat_map existsb].
    destruct (ascii_dec newline newline) as [_|]; [|contradiction].
    now destruct t.
  - cbn [List.filter]. rewrite (proj2 (Nat.ltb_lt _ _)) by lia.
    cbn [flat_map]. rewrite app_nil_r.
    destruct (ascii_dec newline c) as [E|_]; [now subst c|].
    exact IH.
Qed.

Lemma fullmatch_dot_star t : fullmatch ".*" t = one_line t.
Proof.
  unfold fullmatch.
  assert (E : compile ".*" = Some (alts (map seqs [[Star Any]])))
    by reflexivity.
  rewrite E, ends_wrapped_group. apply star_any_reaches_end.
Qed.

Lemma fullmatch_empty t : fullmatch "" t = String.eqb t "".
Proof. now destruct t. Qed.

Lemma single_branch_dot_star : single_branch ".*".
Proof. now exists [Star Any]. Qed.

Lemma single_branch_empty : single_branch "".
Proof. now exists []. Qed.

End SelectionFacts.

Section SelectTasks.

Import Re.

Lemma py_or_default {A} (xs : option (list A)) (d : list A) :
  py_or xs d = match py_or xs [] with [] => d | _ :: _ => py_or xs [] end.
Proof. now destruct xs as [[|x l]|]. Qed.

Lemma regex_source_nil : regex_source [] = regex_source [""].
Proof. reflexivity. Qed.

Lemma compile_effective (ps : list string) (d : string) :
  Forall single_branch ps -> single_branch d ->
  exists R,
    compile (regex_source (match ps with [] => [d] | _ => ps end)) = Some R
    /\ forall t, match_ R t
                 = match ps with
                   | [] => fullmatch d t
                   | _ => existsb (fun p => fullmatch p t) ps
                   end.
Proof.
  intros Hps Hd. destruct ps as [|p ps].
  - destruct (compile_single_branches [d]) as (R & HR & Hm);
      [now repeat constructor | discriminate |].
    exists R. split; [exact HR|]. intros t. rewrite Hm. cbn [existsb].
    apply orb_false_r.
  - apply compile_single_branches; [exact Hps | discriminate].
Qed.

End SelectTasks.

(** ** Claims about task selection *)




(** C9: the appended [\Z] binds to the last alternative of a pattern only.
    The pattern [a|b] does not match all of the name "ab", and yet selects
    it; the patterns "a" and "a*" of the claim do not select "ab" and
    "a_2". *)
Theorem alternation_escapes_anchor :
  Re.fullmatch "a|b" "ab" = false
  /\ select_tasks ["ab"] (Some ["a|b"]) None = Some ["ab"]
  /\ select_tasks ["ab"] (Some ["a"]) None = Some []
  /\ select_tasks ["a_2"] (Some ["a*"]) None = Some [].
Proof. repeat split; reflexivity. Qed.

(** ** The planner *)

Section PlannerFacts.

Context (U : SeqioUtils).
Context (cache_dir_arg : string) (max_input_examples : option Z)
        (overwrite : bool) (completed_file_contents : string).

Local Abbreviation body :=
  (process_task U cache_dir_arg max_input_examples overwrite
     completed_file_contents).
Local Abbreviation loop :=
  (process_tasks U cache_dir_arg max_input_examples overwrite
     completed_file_contents).

Lemma same_effects_refl st : same_effects st st.
Proof. now repeat split. Qed.

Lemma same_effects_log r st : same_effects (log r st) st.
Proof. now repeat split. Qed.

Lemma same_effects_trans st1 st2 st3 :
  same_effects st1 st2 -> same_effects st2 st3 -> same_effects st1 st3.
Proof. unfold same_effects. intros (-> & -> & ->) (-> & -> & ->). auto. Qed.

Lemma plan_task_same st1 st2 task output_dir :
  same_effects st1 st2 ->
  same_effects (plan_task U max_input_examples completed_file_contents
                  task output_dir st1)
    (plan_task U max_input_examples completed_file_contents
       task output_dir st2).
Proof.
  intros (Ho & Hf & Hp). unfold plan_task, same_effects.
  destruct (is_function_source task); cbn; now rewrite Ho, Hf, Hp.
Qed.

Lemma check_splits_same st1 st2 task output_dir :
  same_effects st1 st2 ->
  same_effects (check_splits U max_input_examples completed_file_contents
                  task output_dir st1)
    (check_splits U max_input_examples completed_file_contents
       task output_dir st2).
Proof.
  intros H. unfold check_splits. destruct (splits task).
  - exact H.
  - now apply plan_task_same.
Qed.

(** The loop body reads the result list, the files and the pipeline of the
    state, never its log. *)
Lemma process_task_same st1 st2 task :
  same_effects st1 st2 ->
  same_effects (body st1 task) (body st2 task).
Proof.
  intros H. unfold process_task.
  destruct (negb (supports_caching task)); [exact H|].
  destruct (Py.truthy (cache_dir task) && negb overwrite); [exact H|].
  destruct (Py.truthy (cache_dir task) && overwrite);
    [|now apply check_splits_same].
  case_bool_decide; [|exact H].
  apply check_splits_same. destruct H as (Ho & Hf & Hp).
  unfold same_effects. cbn. now rewrite Ho, Hf, Hp.
Qed.

Lemma process_tasks_same registry names st1 st2 :
  same_effects st1 st2 ->
  same_outcome (loop registry names st1) (loop registry names st2).
Proof.
  revert st1 st2. induction names as [|n names IH]; intros st1 st2 H.
  - exact H.
  - cbn [process_tasks].
    destruct (registry_get registry n); [|exact I].
    now apply IH, process_task_same.
Qed.

Lemma process_tasks_app registry names1 names2 st :
  loop registry (names1 ++ names2) st
  = match loop registry names1 st with
    | Some st' => loop registry names2 st'
    | None => None
    end.
Proof.
  revert st. induction names1 as [|n names1 IH]; intros st; [reflexivity|].
  cbn [app process_tasks].
  destruct (registry_get registry n); [apply IH | reflexivity].
Qed.

End PlannerFacts.

(** ** Claims about the cache decision *)

(** C4: a task whose cache was found in a directory other than the requested
    output directory, with [overwrite] set, leaves the planner as it was: its
    output directory is not appended to the returned list, no file is deleted
    or changed, and nothing is added to the pipeline, so nothing will be
    written for it; one record is logged.  A run of the loop with the task
    among the selected ones has the outcome of the run without it. *)
Theorem refuse_leaves_everything
    (U : SeqioUtils) (cache_dir_arg : string) (max_input_examples : option Z)
    (completed_file_contents : string) (task : Task) :
  Py.truthy (cache_dir task) = true ->
  cache_dir task <> Some (output_dir_of U cache_dir_arg task) ->
  (forall st,
      let st' := process_task U cache_dir_arg max_input_examples true
                   completed_file_contents st task in
      output_dirs st' = output_dirs st
      /\ fs st' = fs st
      /\ pipeline st' = pipeline st
      /\ exists r, logs st' = logs st ++ [r])
  /\ (forall registry before after st,
         registry_get registry (name task) = Some task ->
         same_outcome
           (process_tasks U cache_dir_arg max_input_examples true
              completed_file_contents registry
              (before ++ name task :: after) st)
           (process_tasks U cache_dir_arg max_input_examples true
              completed_file_contents registry (before ++ after) st)).
Proof.
  intros Hset Hdiff.
  assert (Hstep : forall st,
             exists r, process_task U cache_dir_arg max_input_examples true
                         completed_file_contents st task = log r st).
  { intros st. unfold process_task.
    destruct (supports_caching task); cbn [negb]; [|eauto].
    rewrite Hset. cbn [andb negb].
    rewrite bool_decide_eq_false_2 by exact Hdiff. eauto. }
  split.
  - intros st. destruct (Hstep st) as [r Hr]. cbn zeta. rewrite Hr.
    repeat split. now exists r.
  - intros registry before after st Hget.
    rewrite !process_tasks_app.
    destruct (process_tasks U cache_dir_arg max_input_examples true
                completed_file_contents registry before st) as [st1|];
      [|exact I].
    cbn [process_tasks]. rewrite Hget.
    destruct (Hstep st1) as [r ->].
    apply process_tasks_same, same_effects_log.
Qed.

Lemma refuse_leaves_everything_witness :
  let task := example_task "t" (Some "elsewhere/t") ["train"] [] in
  let st0 := {| output_dirs := []; fs := example_files;
                pipeline := []; logs := [] |} in
  Py.truthy (cache_dir task) = true
  /\ cache_dir task <> Some (output_dir_of example_utils "cache" task)
  /\ fs (process_task example_utils "cache" None true "" st0 task)
     = example_files
  /\ output_dirs (process_task example_utils "cache" None true "" st0 task)
     = [].
Proof.
  intros task st0.
  assert (H1 : Py.truthy (cache_dir task) = true) by reflexivity.
  assert (H2 : cache_dir task <> Some (output_dir_of example_utils "cache" task))
    by (vm_compute; discriminate).
  destruct (proj1 (refuse_leaves_everything example_utils "cache" None ""
                     task H1 H2) st0) as (Ho & Hf & _).
  split; [exact H1|]. split; [exact H2|]. split; [exact Hf | exact Ho].
Defined.

(** C5: a task without splits is skipped, but only after the overwrite
    decision.  With [overwrite] set and its cache found in the requested
    output directory, the planner returns no directory for it, plans nothing
    and logs the warning, and has removed every file of its cache. *)
Theorem no_splits_cache_removed :
  let task := example_task "t" (Some "cache/t") [] [] in
  exists st,
    run_pipeline example_utils "cache" None true "" [task] example_files
      None None
    = Some ([], st)
    /\ pipeline st = []
    /\ example_files !! "cache/t/COMPLETED" = Some (FText "")
    /\ fs st !! "cache/t/COMPLETED" = None
    /\ fs st !! "cache/t/info.train.json" = None
    /\ logs st
       = [LogWarning
            "Overwriting already cached data for task 't' in cache_dir cache/t";
          LogWarning "Skipping task 't' with no splits."].
Proof.
  intros task. eexists. split; [vm_compute; reflexivity|].
  repeat split; vm_compute; reflexivity.
Qed.

(** ** The sharded producer *)

Section ShardFacts.

Import PreprocessTask.

Context {A : Type}.
Implicit Types (ds rest : list A).

Lemma take_repeat_empty n : take_repeat n [] ([] : list A) = [].
Proof. now destruct n. Qed.

Lemma take_repeat_length n rest ds :
  ds <> [] -> length (take_repeat n rest ds) = n.
Proof.
  intros Hne. revert rest. induction n as [|n IH]; intros rest; [reflexivity|].
  cbn [take_repeat]. destruct rest as [|x rest'].
  - destruct ds as [|x rest']; [congruence|]. cbn [length]. now rewrite IH.
  - cbn [length]. now rewrite IH.
Qed.

(** The record at position [k] of the capped stream is the record at
    position [k] of the endless repetition of the shard. *)
Lemma take_repeat_lookup n ds j k :
  ds <> [] -> (j <= length ds)%nat -> (k < n)%nat ->
  take_repeat n (drop j ds) ds !! k = ds !! ((j + k) mod length ds)%nat.
Proof.
  intros Hne. revert j k. induction n as [|n IH]; intros j k Hj Hk; [lia|].
  destruct (decide (j < length ds)%nat) as [Hlt|Hge].
  - destruct (lookup_lt_is_Some_2 ds j Hlt) as [x Hx].
    rewrite (drop_S _ _ _ Hx). cbn [take_repeat]. destruct k as [|k].
    + rewrite lookup_cons, Nat.add_0_r, Nat.mod_small by lia. now rewrite Hx.
    + rewrite lookup_cons, (IH (S j) k) by lia.
      f_equal. f_equal. lia.
  - assert (j = length ds) as -> by lia. rewrite drop_all.
    assert (Hstep : take_repeat (S n) [] ds
                    = match ds with
                      | x :: _ => x :: take_repeat n (drop 1 ds) ds
                      | [] => []
                      end).
    { destruct ds; [congruence | reflexivity]. }
    rewrite Hstep. clear Hstep.
    assert (H0 : ds !! 0%nat = head ds) by now destruct ds.
    destruct ds as [|x ds'] eqn:Eds; [congruence|]. rewrite <- Eds in *.
    destruct k as [|k].
    + rewrite lookup_cons, Nat.add_0_r, Nat.Div0.mod_same, H0.
      now rewrite Eds.
    + rewrite lookup_cons, (IH 1%nat k) by (rewrite ?Eds; cbn; lia).
      f_equal.
      replace (length ds + S k)%nat with (S k + 1 * length ds)%nat by lia.
      now rewrite Nat.Div0.mod_add.
Qed.

End ShardFacts.

Section CapFacts.

Import PreprocessTask.

Lemma length_flat_map_const {A B} (g : A -> list B) (l : list A) (c : nat) :
  (forall x, In x l -> length (g x) = c) ->
  length (flat_map g l) = (length l * c)%nat.
Proof.
  induction l as [|x l IH]; intros H; [reflexivity|].
  cbn [flat_map length]. rewrite length_app, (H x) by (cbn; auto).
  rewrite IH; [lia|]. intros y Hy. apply H. now right.
Qed.

Lemma length_shards task split :
  length (shards task split) = length (list_shards task split).
Proof. unfold shards. apply length_seq. Qed.

Lemma shard_input_capped task split m i :
  0 < m ->
  (i < length (shards task split))%nat ->
  shard_input task split (Some m) i
  = let ds := get_dataset task split i (length (shards task split)) in
    take_repeat (Z.to_nat (m / Z.of_nat (length (shards task split)))) ds ds.
Proof.
  intros Hm Hi. unfold shard_input, int_truediv.
  rewrite (proj2 (Z.eqb_neq m 0)) by lia.
  now rewrite Z.quot_div_nonneg by lia.
Qed.

End CapFacts.

(** ** Claim about the record cap *)

(** C6, as amended: with [max_input_examples] set to a positive value (below
    [2^53]), every shard hands to the task's preprocessing the first
    [floor(max_input_examples / shardCount)] records of the endless
    repetition of its own stream, and none when its stream is empty; when the
    preprocessing keeps the number of records and no shard is empty, every
    shard emits that many records and the split yields
    [shardCount * floor(max_input_examples / shardCount)]. *)
Theorem cap_is_per_shard (task : Task) (split : string) (m : Z) :
  0 < m < 2 ^ 53 ->
  let n := length (PreprocessTask.shards task split) in
  let quota := Z.to_nat (m / Z.of_nat n) in
  (forall i, (i < n)%nat ->
     let ds := get_dataset task split i n in
     let input := PreprocessTask.shard_input task split (Some m) i in
     (ds = [] -> input = [])
     /\ (ds <> [] ->
         length input = quota
         /\ forall k, (k < quota)%nat ->
              input !! k = ds !! (k mod length ds)%nat))
  /\ ((forall l, length (preprocess_precache task l) = length l) ->
      (forall i, (i < n)%nat -> get_dataset task split i n <> []) ->
      (forall i, (i < n)%nat ->
         length (PreprocessTask._emit_examples task split (Some m) i) = quota)
      /\ length (PreprocessTask.expand task split (Some m)) = (n * quota)%nat).
Proof.
  intros [Hm _] n quota.
  assert (Hin : forall i, (i < n)%nat ->
            PreprocessTask.shard_input task split (Some m) i
            = PreprocessTask.take_repeat quota
                (get_dataset task split i n) (get_dataset task split i n)).
  { intros i Hi. now rewrite shard_input_capped. }
  split.
  - intros i Hi ds input. subst input. rewrite (Hin i Hi). fold ds. split.
    + intros ->. apply take_repeat_empty.
    + intros Hne. split; [now apply take_repeat_length|].
      intros k Hk.
      change (PreprocessTask.take_repeat quota ds ds)
        with (PreprocessTask.take_repeat quota (drop 0 ds) ds).
      now rewrite take_repeat_lookup by (auto; lia).
  - intros Hpre Hne.
    assert (Hemit : forall i, (i < n)%nat ->
              length (PreprocessTask._emit_examples task split (Some m) i)
              = quota).
    { intros i Hi. unfold PreprocessTask._emit_examples.
      rewrite Hpre, (Hin i Hi). apply take_repeat_length. now apply Hne. }
    split; [exact Hemit|].
    unfold PreprocessTask.expand, Beam.FlatMap.
    rewrite (length_flat_map_const _ _ quota); [reflexivity|].
    intros i Hi. apply Hemit. unfold PreprocessTask.shards in Hi.
    apply in_seq in Hi. subst n. rewrite length_shards. lia.
Qed.

Lemma cap_is_per_shard_witness :
  let task := example_task "t" None ["train"]
                [ {[ "inputs" := NdArray int32 [5; 6] ]} ] in
  0 < 5 < 2 ^ 53
  /\ length (PreprocessTask.expand task "train" (Some 5)) = 4%nat.
Proof.
  intros task.
  assert (H : 0 < 5 < 2 ^ 53) by (split; reflexivity).
  split; [exact H|].
  apply (proj2 (cap_is_per_shard task "train" 5 H)).
  - reflexivity.
  - intros i _. discriminate.
Defined.

(** C6, as the specification states it, fails for a shard without records:
    the repetition of an empty stream is empty, so a cap of 4 over two empty
    shards yields no record instead of 2 for each. *)
Lemma cap_sentence_counterexample :
  ~ cap_sentence (example_task "t" None ["train"] []) "train" 4.
Proof.
  intros [H _]. specialize (H 0%nat ltac:(cbn; lia)).
  vm_compute in H. discriminate H.
Qed.

(** * Further properties of the code *)

(** ** Merging the statistics, in any order and in stages *)

Section MergeOrder.

Implicit Types (d acc m : stats_dict) (ds : list stats_dict).

Lemma merge_loop_lookup_inv acc ds m k v :
  GetStats.merge_loop acc ds = Some m -> m !! k = Some v ->
  acc !! k = Some v \/ exists d, d ∈ ds /\ d !! k = Some v.
Proof.
  revert acc; induction ds as [|d ds IH]; intros acc; cbn [GetStats.merge_loop].
  - intros [= ->] Hk. now left.
  - case_bool_decide; [|discriminate]. intros Hm Hk.
    destruct (IH _ Hm Hk) as [Hu|(d' & Hin & Hd')].
    + apply lookup_union_Some_raw in Hu as [Hd|[_ Hacc]].
      * right. exists d. split; [now left | exact Hd].
      * now left.
    + right. exists d'. split; [now right | exact Hd'].
Qed.

Lemma disjoint_keys_sym d1 d2 :
  GetStats.disjoint_keys d1 d2 -> GetStats.disjoint_keys d2 d1.
Proof. unfold GetStats.disjoint_keys. intros H. now symmetry. Qed.

Lemma pairs_disjoint_perm ds ds' :
  ds ≡ₚ ds' ->
  ForallOrdPairs GetStats.disjoint_keys ds ->
  ForallOrdPairs GetStats.disjoint_keys ds'.
Proof.
  induction 1 as [|x l l' Hp IH|x y l|l1 l2 l3 _ IH1 _ IH2]; intros H.
  - exact H.
  - inversion H as [|? ? Hx Hl]; subst. constructor; [|now apply IH].
    now rewrite <- Hp.
  - inversion H as [|? ? Hy Hl]; subst. inversion Hl as [|? ? Hx Hl']; subst.
    inversion Hy as [|? ? Hyx Hyl]; subst.
    constructor; [constructor; [now apply disjoint_keys_sym | exact Hx]|].
    constructor; assumption.
  - auto.
Qed.

Lemma merge_dicts_is_Some ds :
  is_Some (GetStats._merge_dicts ds)
  <-> ForallOrdPairs GetStats.disjoint_keys ds.
Proof.
  unfold GetStats._merge_dicts. rewrite merge_loop_is_Some.
  split; [tauto|]. intros Hp. split; [|assumption].
  apply Forall_forall. intros d _. unfold GetStats.disjoint_keys.
  rewrite dom_empty_L. apply disjoint_empty_l.
Qed.

(** The merged dictionary holds exactly the entries of its inputs. *)
Lemma merge_dicts_lookup_iff ds m k v :
  GetStats._merge_dicts ds = Some m ->
  m !! k = Some v <-> exists d, d ∈ ds /\ d !! k = Some v.
Proof.
  intros Hm. split.
  - intros Hk. destruct (merge_loop_lookup_inv _ _ _ _ _ Hm Hk) as [He|?];
      [|assumption]. now rewrite lookup_empty in He.
  - intros (d & Hin & Hd). eapply merge_dicts_lookup; eauto.
Qed.

Lemma merge_dicts_perm ds ds' :
  ds ≡ₚ ds' -> GetStats._merge_dicts ds = GetStats._merge_dicts ds'.
Proof.
  intros Hp.
  destruct (GetStats._merge_dicts ds) as [m|] eqn:E,
           (GetStats._merge_dicts ds') as [m'|] eqn:E'.
  - f_equal. apply map_eq. intros k. apply option_eq. intros v.
    rewrite (merge_dicts_lookup_iff _ _ k v E),
            (merge_dicts_lookup_iff _ _ k v E').
    now setoid_rewrite Hp.
  - exfalso. assert (H : is_Some (GetStats._merge_dicts ds')).
    { apply merge_dicts_is_Some, (pairs_disjoint_perm ds); [exact Hp|].
      apply merge_dicts_is_Some. now rewrite E. }
    rewrite E' in H. now destruct H.
  - exfalso. assert (H : is_Some (GetStats._merge_dicts ds)).
    { apply merge_dicts_is_Some, (pairs_disjoint_perm ds'); [now symmetry|].
      apply merge_dicts_is_Some. now rewrite E'. }
    rewrite E in H. now destruct H.
  - reflexivity.
Qed.

(** X1: the result of [_merge_dicts], the merged dictionary or the failed
    assertion, does not depend on the order in which the dictionaries
    arrive. *)
Theorem merge_dicts_any_order ds ds' :
  ds ≡ₚ ds' -> GetStats._merge_dicts ds = GetStats._merge_dicts ds'.
Proof. apply merge_dicts_perm. Qed.

Lemma merge_dicts_any_order_witness :
  let d1 : stats_dict := {[ "examples" := 3 ]} in
  let d2 : stats_dict := {[ "f_tokens" := 6 ]} in
  [d1; d2] ≡ₚ [d2; d1]
  /\ GetStats._merge_dicts [d1; d2] = GetStats._merge_dicts [d2; d1].
Proof.
  intros d1 d2.
  assert (H : [d1; d2] ≡ₚ [d2; d1]) by apply perm_swap.
  split; [exact H | exact (merge_dicts_any_order _ _ H)].
Defined.

End MergeOrder.

Section MergeStages.

Implicit Types (d m : stats_dict) (ds : list stats_dict).

Lemma pairs_disjoint_app ds1 ds2 :
  ForallOrdPairs GetStats.disjoint_keys (ds1 ++ ds2)
  <-> ForallOrdPairs GetStats.disjoint_keys ds1
      /\ ForallOrdPairs GetStats.disjoint_keys ds2
      /\ forall d1 d2, d1 ∈ ds1 -> d2 ∈ ds2 -> GetStats.disjoint_keys d1 d2.
Proof.
  induction ds1 as [|d ds1 IH]; cbn [app].
  - split.
    + intros H. split; [constructor|]. split; [exact H|].
      intros d1 d2 Hd1. now inversion Hd1.
    + tauto.
  - split.
    + intros H. inversion H as [|? ? Hd Hrest]; subst.
      apply IH in Hrest as (H1 & H2 & Hx). apply Forall_app in Hd as [Hd1 Hd2].
      split; [now constructor|]. split; [exact H2|].
      intros d1 d2 Hin1 Hin2. apply elem_of_cons in Hin1 as [->|Hin1].
      * rewrite Forall_forall in Hd2. now apply Hd2.
      * now apply Hx.
    + intros (H1 & H2 & Hx). inversion H1 as [|? ? Hd Hrest]; subst.
      constructor.
      * apply Forall_app. split; [exact Hd|]. apply Forall_forall.
        intros d2 Hd2. apply Hx; [now left | exact Hd2].
      * apply IH. split; [exact Hrest|]. split; [exact H2|].
        intros d1 d2 Hin1 Hin2. apply Hx; [now right | exact Hin2].
Qed.

Lemma merged_disjoint ds1 ds2 m1 m2 :
  GetStats._merge_dicts ds1 = Some m1 ->
  GetStats._merge_dicts ds2 = Some m2 ->
  GetStats.disjoint_keys m1 m2
  <-> forall d1 d2, d1 ∈ ds1 -> d2 ∈ ds2 -> GetStats.disjoint_keys d1 d2.
Proof.
  intros E1 E2. unfold GetStats.disjoint_keys. split.
  - intros H d1 d2 Hin1 Hin2. apply elem_of_disjoint. intros k Hk1 Hk2.
    apply elem_of_dom in Hk1 as [v1 Hv1]. apply elem_of_dom in Hk2 as [v2 Hv2].
    apply (proj1 (elem_of_disjoint _ _) H k); apply elem_of_dom.
    + exists v1. apply (merge_dicts_lookup_iff _ _ _ _ E1). eauto.
    + exists v2. apply (merge_dicts_lookup_iff _ _ _ _ E2). eauto.
  - intros H. apply elem_of_disjoint. intros k Hk1 Hk2.
    apply elem_of_dom in Hk1 as [v1 Hv1]. apply elem_of_dom in Hk2 as [v2 Hv2].
    apply (merge_dicts_lookup_iff _ _ _ _ E1) in Hv1 as (d1 & Hin1 & Hd1).
    apply (merge_dicts_lookup_iff _ _ _ _ E2) in Hv2 as (d2 & Hin2 & Hd2).
    apply (proj1 (elem_of_disjoint _ _) (H d1 d2 Hin1 Hin2) k);
      apply elem_of_dom; eauto.
Qed.

Lemma pairs_disjoint_two m1 m2 :
  ForallOrdPairs GetStats.disjoint_keys [m1; m2]
  <-> GetStats.disjoint_keys m1 m2.
Proof.
  split.
  - intros H. inversion H as [|? ? Hd _]; subst. now inversion Hd.
  - intros H. repeat constructor. exact H.
Qed.

(** X2: merging in stages gives what merging at once gives: the partial
    results of two groups of dictionaries, merged in turn, are the result
    for all of them, and an overlap inside a group or between the groups
    fails the assertion either way. *)
Theorem merge_dicts_in_stages ds1 ds2 :
  GetStats._merge_dicts (ds1 ++ ds2)
  = match GetStats._merge_dicts ds1, GetStats._merge_dicts ds2 with
    | Some m1, Some m2 => GetStats._merge_dicts [m1; m2]
    | _, _ => None
    end.
Proof.
  destruct (GetStats._merge_dicts ds1) as [m1|] eqn:E1.
  2:{ apply eq_None_not_Some. rewrite merge_dicts_is_Some, pairs_disjoint_app.
      intros (H1 & _). apply merge_dicts_is_Some in H1. rewrite E1 in H1.
      now destruct H1. }
  destruct (GetStats._merge_dicts ds2) as [m2|] eqn:E2.
  2:{ apply eq_None_not_Some. rewrite merge_dicts_is_Some, pairs_disjoint_app.
      intros (_ & H2 & _). apply merge_dicts_is_Some in H2. rewrite E2 in H2.
      now destruct H2. }
  assert (Hiff : is_Some (GetStats._merge_dicts (ds1 ++ ds2))
                 <-> is_Some (GetStats._merge_dicts [m1; m2])).
  { rewrite !merge_dicts_is_Some, pairs_disjoint_app, pairs_disjoint_two,
      (merged_disjoint ds1 ds2 m1 m2 E1 E2).
    split; [tauto|]. intros H. split; [|split; [|exact H]].
    - apply merge_dicts_is_Some. now rewrite E1.
    - apply merge_dicts_is_Some. now rewrite E2. }
  destruct (GetStats._merge_dicts (ds1 ++ ds2)) as [m|] eqn:E,
           (GetStats._merge_dicts [m1; m2]) as [m'|] eqn:E'.
  - f_equal. apply map_eq. intros k. apply option_eq. intros v.
    rewrite (merge_dicts_lookup_iff _ _ k v E),
            (merge_dicts_lookup_iff _ _ k v E').
    split.
    + intros (d & Hin & Hd). apply elem_of_app in Hin as [Hin|Hin].
      * exists m1. split; [now left|].
        apply (merge_dicts_lookup_iff _ _ _ _ E1). eauto.
      * exists m2. split; [right; now left|].
        apply (merge_dicts_lookup_iff _ _ _ _ E2). eauto.
    + intros (d & Hin & Hd).
      apply elem_of_cons in Hin as [->|Hin];
        [|apply list_elem_of_singleton in Hin as ->].
      * apply (merge_dicts_lookup_iff _ _ _ _ E1) in Hd as (d1 & Hin1 & Hd1).
        exists d1. split; [apply elem_of_app; now left | exact Hd1].
      * apply (merge_dicts_lookup_iff _ _ _ _ E2) in Hd as (d2 & Hin2 & Hd2).
        exists d2. split; [apply elem_of_app; now right | exact Hd2].
  - exfalso. destruct (proj1 Hiff ltac:(eauto)) as [? [=]].
  - exfalso. destruct (proj2 Hiff ltac:(eauto)) as [? [=]].
  - reflexivity.
Qed.

End MergeStages.

(** ** The statistics do not depend on the order of the records *)

Section StatsOrder.

Implicit Types (feats : gset string) (exs : list example)
  (kvs : list (string * Z)).

Lemma sum_perm (xs ys : list Z) : xs ≡ₚ ys -> Py.sum xs = Py.sum ys.
Proof.
  unfold Py.sum. induction 1 as [|x l l' _ IH|x y l|l1 l2 l3 _ IH1 _ IH2];
    cbn [foldr]; lia.
Qed.

Lemma is_max_of_unique (m1 m2 : Z) (xs : list Z) :
  is_max_of m1 xs -> is_max_of m2 xs -> m1 = m2.
Proof.
  intros [Hin1 Hall1] [Hin2 Hall2]. rewrite Forall_forall in Hall1, Hall2.
  specialize (Hall1 m2 Hin2). specialize (Hall2 m1 Hin1). lia.
Qed.

Lemma max_perm (xs ys : list Z) : xs ≡ₚ ys -> Py.max xs = Py.max ys.
Proof.
  intros Hp. destruct xs as [|x xs].
  - apply Permutation_nil_l in Hp. now subst.
  - assert (Hne : ys <> []).
    { intros ->. now apply Permutation_nil_r in Hp. }
    apply (is_max_of_unique _ _ ys); [|now apply max_spec].
    destruct (max_spec (x :: xs) ltac:(discriminate)) as [Hin Hall].
    split; [now rewrite <- Hp | now rewrite <- Hp].
Qed.

Lemma values_of_perm k kvs kvs' :
  kvs ≡ₚ kvs' -> Beam.values_of k kvs ≡ₚ Beam.values_of k kvs'.
Proof.
  intros Hp. unfold Beam.values_of. apply Permutation_map. now rewrite Hp.
Qed.

Lemma CombinePerKey_perm (fn : list Z -> Z) kvs kvs' :
  (forall xs ys, xs ≡ₚ ys -> fn xs = fn ys) ->
  kvs ≡ₚ kvs' ->
  Beam.CombinePerKey fn kvs ≡ₚ Beam.CombinePerKey fn kvs'.
Proof.
  intros Hfn Hp. unfold Beam.CombinePerKey.
  rewrite (map_ext (fun k => (k, fn (Beam.values_of k kvs)))
                   (fun k => (k, fn (Beam.values_of k kvs')))).
  - apply Permutation_map. apply NoDup_Permutation;
      [apply NoDup_remove_dups | apply NoDup_remove_dups |].
    intros k. rewrite !elem_of_remove_dups.
    now rewrite (Permutation_map fst Hp).
  - intros k. f_equal. now apply Hfn, values_of_perm.
Qed.

Lemma token_counts_perm feats exs exs' :
  exs ≡ₚ exs' ->
  GetStats.token_counts feats exs ≡ₚ GetStats.token_counts feats exs'.
Proof.
  intros Hp. unfold GetStats.token_counts, Beam.Flatten.
  induction (elements feats) as [|f l IH]; [reflexivity|].
  cbn [map concat]. apply Permutation_app; [|exact IH].
  unfold GetStats._count_tokens, Beam.FlatMap. now apply Permutation_flat_map.
Qed.

Lemma expand_perm feats exs exs' :
  exs ≡ₚ exs' -> GetStats.expand feats exs = GetStats.expand feats exs'.
Proof.
  intros Hp. rewrite !expand_unfold. apply merge_dicts_perm.
  apply Permutation_map. rewrite (Permutation_length Hp).
  apply perm_skip, Permutation_app.
  - apply CombinePerKey_perm; [apply sum_perm | now apply token_counts_perm].
  - apply Permutation_map, CombinePerKey_perm;
      [apply max_perm | now apply token_counts_perm].
Qed.

End StatsOrder.

(** X3: the dictionary of [GetStats], or its failure, is the same for every
    order in which the records of the split arrive. *)
Theorem stats_any_record_order
    (feats : gset string) (exs exs' : list example) :
  exs ≡ₚ exs' -> GetStats.expand feats exs = GetStats.expand feats exs'.
Proof. apply expand_perm. Qed.

Lemma stats_any_record_order_witness :
  let a : example := {[ "f" := NdArray int32 [2; 2; 1] ]} in
  let b : example := {[ "f" := NdArray int32 [2; 1; 1] ]} in
  [a; b] ≡ₚ [b; a]
  /\ GetStats.expand {[ "f" ]} [a; b] = GetStats.expand {[ "f" ]} [b; a].
Proof.
  intros a b.
  assert (H : [a; b] ≡ₚ [b; a]) by apply perm_swap.
  split; [exact H | exact (stats_any_record_order _ _ _ H)].
Defined.

(** ** What the statistics dictionary holds *)

Section StatsContents.

Implicit Types (feats : gset string) (exs : list example) (f g k : string).

Lemma count_inv g ex (kv : string * Z) :
  kv ∈ GetStats._count g ex ->
  int_array_feature g ex /\ kv = (g +:+ "_tokens", tokens_in g ex).
Proof.
  unfold GetStats._count, int_array_feature, tokens_in.
  destruct (ex !! g) as [[dt data|]|] eqn:E; try (intros H; now inversion H).
  destruct (GetStats.is_int32_or_int64 dt) eqn:Edt; intros H; [|now inversion H].
  apply list_elem_of_singleton in H as ->. split.
  - now exists dt, data.
  - now rewrite sum_indicator.
Qed.

Lemma token_counts_inv feats exs (kv : string * Z) :
  kv ∈ GetStats.token_counts feats exs ->
  exists g ex, g ∈ feats /\ ex ∈ exs /\ int_array_feature g ex
               /\ kv = (g +:+ "_tokens", tokens_in g ex).
Proof.
  unfold GetStats.token_counts, Beam.Flatten. intros Hkv.
  apply list_elem_of_In, in_concat in Hkv as (kvs & Hkvs & Hkv).
  apply in_map_iff in Hkvs as (g & <- & Hg).
  unfold GetStats._count_tokens, Beam.FlatMap in Hkv.
  apply in_flat_map in Hkv as (ex & Hex & Hkv).
  apply list_elem_of_In, count_inv in Hkv as [Hint ->].
  exists g, ex. repeat split; auto.
  - now apply elem_of_elements, list_elem_of_In.
  - now apply list_elem_of_In.
Qed.

Lemma CombinePerKey_inv (fn : list Z -> Z) (kvs : list (string * Z)) k v :
  (k, v) ∈ Beam.CombinePerKey fn kvs ->
  k ∈ map fst kvs /\ v = fn (Beam.values_of k kvs).
Proof.
  unfold Beam.CombinePerKey. intros H.
  apply list_elem_of_In, in_map_iff in H as (k' & [= -> ->] & Hk).
  split; [|reflexivity]. now apply elem_of_remove_dups, list_elem_of_In.
Qed.

Lemma expand_lookup_inv feats exs (d : stats_dict) k v :
  GetStats.expand feats exs = Some d -> d !! k = Some v ->
  (k, v) ∈ ("examples", Z.of_nat (length exs))
            :: Beam.CombinePerKey Py.sum (GetStats.token_counts feats exs)
            ++ map GetStats.rename_max_stat
                 (Beam.CombinePerKey Py.max (GetStats.token_counts feats exs)).
Proof.
  rewrite expand_unfold. intros Hd Hk.
  apply (merge_dicts_lookup_iff _ _ _ _ Hd) in Hk as (d0 & Hin & Hd0).
  apply list_elem_of_In, in_map_iff in Hin as ([k0 v0] & <- & Hin).
  unfold GetStats.to_dict in Hd0. cbn [fst snd] in Hd0.
  apply lookup_singleton_Some in Hd0 as [-> ->]. now apply list_elem_of_In.
Qed.

Lemma key_has_feature feats exs k :
  k ∈ map fst (GetStats.token_counts feats exs) ->
  exists g ex, g ∈ feats /\ ex ∈ exs /\ int_array_feature g ex
               /\ k = g +:+ "_tokens".
Proof.
  intros Hk. apply list_elem_of_In, in_map_iff in Hk as (kv & <- & Hkv).
  apply list_elem_of_In, token_counts_inv in Hkv
    as (g & ex & Hg & Hex & Hint & ->).
  now exists g, ex.
Qed.

Lemma token_counts_nil feats : GetStats.token_counts feats [] = [].
Proof.
  unfold GetStats.token_counts, Beam.Flatten.
  induction (elements feats) as [|f l IH]; [reflexivity|].
  cbn [map concat]. now rewrite IH.
Qed.

Lemma expand_nil feats :
  GetStats.expand feats [] = Some {[ "examples" := 0 ]}.
Proof.
  rewrite expand_unfold, token_counts_nil.
  unfold Beam.CombinePerKey, GetStats._merge_dicts. cbn [map remove_dups app].
  cbn [GetStats.merge_loop length Z.of_nat].
  rewrite bool_decide_eq_true_2.
  - unfold GetStats.to_dict. cbn [fst snd]. now rewrite (right_id_L ∅ (∪)).
  - rewrite dom_empty_L. apply (left_absorb_L ∅ (∩)).
Qed.

End StatsContents.

(** X4: the dictionary of [GetStats] holds nothing but the record count
    under "examples" and, for declared features that are int32 or int64
    arrays in at least one record, their sum key and their renamed maximum
    key; a feature that is not declared, or that is such an array in no
    record, leaves no entry. *)
Theorem stats_keys_come_from_features
    (feats : gset string) (exs : list example) (d : stats_dict)
    (k : string) (v : Z) :
  GetStats.expand feats exs = Some d ->
  d !! k = Some v ->
  (k = "examples" /\ v = Z.of_nat (length exs))
  \/ exists g ex,
       g ∈ feats /\ ex ∈ exs /\ int_array_feature g ex
       /\ (k = g +:+ "_tokens"
           \/ k = PyStr.replace "tokens" "max_tokens" (g +:+ "_tokens")).
Proof.
  intros Hd Hk. apply (expand_lookup_inv _ _ _ _ _ Hd) in Hk.
  apply elem_of_cons in Hk as [[= -> ->]|Hk]; [now left | right].
  apply elem_of_app in Hk as [Hk|Hk].
  - apply CombinePerKey_inv in Hk as [Hk _].
    apply key_has_feature in Hk as (g & ex & Hg & Hex & Hint & ->).
    exists g, ex. auto.
  - apply list_elem_of_In, in_map_iff in Hk as ([k0 v0] & [= <- <-] & Hk).
    apply list_elem_of_In, CombinePerKey_inv in Hk as [Hk _].
    apply key_has_feature in Hk as (g & ex & Hg & Hex & Hint & ->).
    exists g, ex. cbn [fst]. auto.
Qed.

Lemma stats_keys_come_from_features_witness :
  let exs : list example := [ {[ "f" := NdArray int32 [2; 2; 1] ]} ] in
  let d : stats_dict :=
    {[ "examples" := 1; "f_tokens" := 2; "f_max_tokens" := 2 ]} in
  GetStats.expand {[ "f" ]} exs = Some d
  /\ d !! "f_tokens" = Some 2
  /\ (("f_tokens" = "examples" /\ 2 = Z.of_nat (length exs))
      \/ exists g ex,
           g ∈ ({[ "f" ]} : gset string) /\ ex ∈ exs /\ int_array_feature g ex
           /\ ("f_tokens" = g +:+ "_tokens"
               \/ "f_tokens"
                  = PyStr.replace "tokens" "max_tokens" (g +:+ "_tokens"))).
Proof.
  intros exs d.
  assert (Hd : GetStats.expand {[ "f" ]} exs = Some d) by (vm_compute; reflexivity).
  assert (Hk : d !! "f_tokens" = Some 2) by (vm_compute; reflexivity).
  split; [exact Hd|]. split; [exact Hk|].
  exact (stats_keys_come_from_features _ _ _ _ _ Hd Hk).
Defined.

(** X5: for a split without records [GetStats] yields the dictionary that
    maps "examples" to 0 and holds nothing else, whatever the declared
    features. *)
Theorem stats_of_no_records (feats : gset string) :
  GetStats.expand feats [] = Some {[ "examples" := 0 ]}.
Proof. apply expand_nil. Qed.

Section StatsCollision.

Implicit Types (feats : gset string) (exs : list example) (f g : string).

Lemma string_app_assoc (a b c : string) : (a +:+ b) +:+ c = a +:+ (b +:+ c).
Proof.
  induction a as [|x a IH]; [reflexivity|].
  rewrite !app_cons. now rewrite IH.
Qed.

Lemma stats_entries feats exs f (d : stats_dict) :
  f ∈ feats -> PyStr.contains "tokens" f = false -> exs <> [] ->
  Forall (int_array_feature f) exs ->
  GetStats.expand feats exs = Some d ->
  d !! (f +:+ "_tokens") = Some (Py.sum (map (tokens_in f) exs))
  /\ d !! (f +:+ "_max_tokens") = Some (Py.max (map (tokens_in f) exs)).
Proof.
  intros Hf Hname Hne Hall Hd.
  assert (Hkey : (f +:+ "_tokens") ∈ map fst (GetStats.token_counts feats exs)).
  { destruct exs as [|ex exs']; [congruence|].
    apply (token_counts_has_key feats f ex); [assumption | | now left].
    now inversion Hall. }
  split.
  - apply (expand_lookup feats exs); [assumption|].
    right. apply elem_of_app. left.
    rewrite <- (values_of_token_counts feats f exs) by assumption.
    now apply CombinePerKey_elem.
  - apply (expand_lookup feats exs); [assumption|].
    right. apply elem_of_app. right.
    rewrite <- (rename_max_stat_plain f _ Hname).
    apply list_elem_of_In, in_map, list_elem_of_In.
    rewrite <- (values_of_token_counts feats f exs) by assumption.
    now apply CombinePerKey_elem.
Qed.

Lemma elem_le_sum (xs : list Z) (x : Z) :
  Forall (fun y => 0 <= y) xs -> x ∈ xs -> x <= Py.sum xs.
Proof.
  unfold Py.sum. induction 1 as [|y xs Hy Hxs IH]; intros Hin;
    [now inversion Hin|].
  assert (Hs : 0 <= foldr Z.add 0 xs).
  { clear IH Hin. induction Hxs; cbn [foldr]; lia. }
  cbn [foldr]. apply elem_of_cons in Hin as [->|Hin]; [lia|].
  specialize (IH Hin). lia.
Qed.

Lemma tokens_in_nonneg f (ex : example) : 0 <= tokens_in f ex.
Proof. unfold tokens_in. destruct (ex !! f) as [[? ?|?]|]; lia. Qed.

End StatsCollision.

(** X6: two declared features named [g] and [g_max], both int32 or int64
    arrays in some record, make [GetStats] fail on the assertion of
    [_merge_dicts]: the renamed maximum key of [g] is the sum key of
    [g_max]. *)
Theorem stats_fail_on_colliding_names
    (feats : gset string) (exs : list example) (g : string)
    (ex1 ex2 : example) :
  g ∈ feats -> (g +:+ "_max") ∈ feats ->
  PyStr.contains "tokens" g = false ->
  ex1 ∈ exs -> int_array_feature g ex1 ->
  ex2 ∈ exs -> int_array_feature (g +:+ "_max") ex2 ->
  GetStats.expand feats exs = None.
Proof.
  intros Hg Hh Hname Hex1 Hint1 Hex2 Hint2.
  apply eq_None_not_Some. rewrite expand_unfold, merge_dicts_is_Some.
  cbn [map]. intros H. inversion H as [|? ? _ Hrest]; subst. clear H.
  rewrite map_app in Hrest. apply pairs_disjoint_app in Hrest as (_ & _ & Hx).
  set (tc := GetStats.token_counts feats exs) in *.
  assert (H1 : GetStats.to_dict
                 ((g +:+ "_max") +:+ "_tokens",
                  Py.sum (Beam.values_of ((g +:+ "_max") +:+ "_tokens") tc))
               ∈ map GetStats.to_dict (Beam.CombinePerKey Py.sum tc)).
  { apply list_elem_of_In, in_map, list_elem_of_In, CombinePerKey_elem.
    now apply (token_counts_has_key feats _ ex2). }
  assert (H2 : GetStats.to_dict
                 (GetStats.rename_max_stat
                    (g +:+ "_tokens",
                     Py.max (Beam.values_of (g +:+ "_tokens") tc)))
               ∈ map GetStats.to_dict
                   (map GetStats.rename_max_stat
                      (Beam.CombinePerKey Py.max tc))).
  { apply list_elem_of_In, in_map, in_map, list_elem_of_In, CombinePerKey_elem.
    now apply (token_counts_has_key feats _ ex1). }
  specialize (Hx _ _ H1 H2). revert Hx.
  rewrite (rename_max_stat_plain g _ Hname), string_app_assoc.
  unfold GetStats.disjoint_keys, GetStats.to_dict. cbn [fst snd].
  rewrite !dom_singleton_L. intros Hx.
  apply (proj1 (elem_of_disjoint _ _) Hx (g +:+ "_max_tokens"));
    now apply elem_of_singleton.
Qed.

Lemma stats_fail_on_colliding_names_witness :
  let ex : example :=
    {[ "g" := NdArray int32 [2; 3]; "g_max" := NdArray int64 [5] ]} in
  GetStats.expand {[ "g"; "g_max" ]} [ex] = None.
Proof.
  intros ex.
  apply (stats_fail_on_colliding_names {[ "g"; "g_max" ]} [ex] "g" ex ex).
  - apply elem_of_union. left. now apply elem_of_singleton.
  - apply elem_of_union. right. now apply elem_of_singleton.
  - reflexivity.
  - now left.
  - eexists _, _. split; reflexivity.
  - now left.
  - eexists _, _. split; reflexivity.
Defined.

(** X7: in the dictionary of [GetStats], for a feature as in the statistics
    property, the maximum entry is at least 0 and at most the sum entry. *)
Theorem stats_max_at_most_sum
    (feats : gset string) (exs : list example) (f : string) (d : stats_dict) :
  f ∈ feats ->
  PyStr.contains "tokens" f = false ->
  exs <> [] ->
  Forall (int_array_feature f) exs ->
  GetStats.expand feats exs = Some d ->
  exists s m,
    d !! (f +:+ "_tokens") = Some s
    /\ d !! (f +:+ "_max_tokens") = Some m
    /\ 0 <= m <= s.
Proof.
  intros Hf Hname Hne Hall Hd.
  destruct (stats_entries feats exs f d Hf Hname Hne Hall Hd) as [Hs Hm].
  eexists _, _. split; [exact Hs|]. split; [exact Hm|].
  assert (Hnn : Forall (fun y => 0 <= y) (map (tokens_in f) exs)).
  { apply Forall_forall. intros y Hy.
    apply list_elem_of_In, in_map_iff in Hy as (ex & <- & _).
    apply tokens_in_nonneg. }
  destruct (max_spec (map (tokens_in f) exs)) as [Hin Hmax].
  { destruct exs; [congruence | discriminate]. }
  split.
  - rewrite Forall_forall in Hnn. now apply Hnn.
  - now apply elem_le_sum.
Qed.

Lemma stats_max_at_most_sum_witness :
  let exs : list example :=
    [ {[ "f" := NdArray int32 [2; 2; 1] ]};
      {[ "f" := NdArray int32 [2; 2; 2] ]} ] in
  let d : stats_dict :=
    {[ "examples" := 2; "f_tokens" := 5; "f_max_tokens" := 3 ]} in
  GetStats.expand {[ "f" ]} exs = Some d
  /\ exists s m,
       d !! "f_tokens" = Some s /\ d !! "f_max_tokens" = Some m /\ 0 <= m <= s.
Proof.
  intros exs d.
  assert (Hd : GetStats.expand {[ "f" ]} exs = Some d) by (vm_compute; reflexivity).
  split; [exact Hd|].
  apply (stats_max_at_most_sum {[ "f" ]} exs "f" d).
  - now apply elem_of_singleton.
  - reflexivity.
  - discriminate.
  - repeat constructor; eexists _, _; (split; reflexivity).
  - exact Hd.
Defined.

(** ** The schema descriptor *)



(** ** The cache decision, branch by branch *)

Section DecisionFacts.

Context (U : SeqioUtils).
Context (cache_dir_arg : string) (max_input_examples : option Z)
        (completed_file_contents : string).

Local Abbreviation body overwrite :=
  (process_task U cache_dir_arg max_input_examples overwrite
     completed_file_contents).

Lemma process_task_skip overwrite st task :
  supports_caching task = false
  \/ (Py.truthy (cache_dir task) = true /\ overwrite = false) ->
  exists r, body overwrite st task = log r st.
Proof.
  intros [Hs|[Hc ->]]; unfold process_task.
  - rewrite Hs. cbn [negb]. eauto.
  - destruct (supports_caching task); cbn [negb]; [|eauto].
    rewrite Hc. cbn [negb andb]. eauto.
Qed.

Lemma process_task_fresh overwrite st task :
  supports_caching task = true ->
  Py.truthy (cache_dir task) = false ->
  body overwrite st task
  = check_splits U max_input_examples completed_file_contents task
      (output_dir_of U cache_dir_arg task) st.
Proof.
  intros Hs Hc. unfold process_task. rewrite Hs, Hc. reflexivity.
Qed.

Lemma process_task_overwrite st task :
  supports_caching task = true ->
  Py.truthy (cache_dir task) = true ->
  cache_dir task = Some (output_dir_of U cache_dir_arg task) ->
  exists r,
    body true st task
    = check_splits U max_input_examples completed_file_contents task
        (output_dir_of U cache_dir_arg task)
        {| output_dirs := output_dirs st;
           fs := rmtree (output_dir_of U cache_dir_arg task) (fs st);
           pipeline := pipeline st;
           logs := logs st ++ [r] |}.
Proof.
  intros Hs Hc Heq. unfold process_task. rewrite Hs, Hc. cbn [negb andb].
  rewrite bool_decide_eq_true_2 by exact Heq. eexists. reflexivity.
Qed.

Lemma check_splits_plans st task output_dir :
  splits task <> [] ->
  let st' := check_splits U max_input_examples completed_file_contents
               task output_dir st in
  output_dirs st' = output_dirs st ++ [output_dir]
  /\ fs st' = fs st
  /\ pipeline st'
     = pipeline st
       ++ [build_task_graph U max_input_examples completed_file_contents
             task output_dir].
Proof.
  intros Hne. unfold check_splits. destruct (splits task); [congruence|].
  unfold plan_task. now destruct (is_function_source task).
Qed.

Lemma rmtree_lookup dir (files : gmap string file) path :
  rmtree dir files !! path
  = if under dir path then None else files !! path.
Proof.
  unfold rmtree. destruct (under dir path) eqn:E.
  - apply map_lookup_filter_None. right. intros x _. cbn. congruence.
  - destruct (files !! path) as [x|] eqn:Ex.
    + apply map_lookup_filter_Some. split; [exact Ex | exact E].
    + apply map_lookup_filter_None. now left.
Qed.

End DecisionFacts.

(** X9: a task that does not support caching, and a task found in a cache
    while [overwrite] is unset, leave the planner as it was: no directory is
    returned for it, no file is touched and nothing is added to the
    pipeline; one record is logged.  A run with the task among the selected
    ones has the outcome of the run without it. *)
Theorem skip_leaves_everything
    (U : SeqioUtils) (cache_dir_arg : string) (max_input_examples : option Z)
    (overwrite : bool) (completed_file_contents : string) (task : Task) :
  supports_caching task = false
  \/ (Py.truthy (cache_dir task) = true /\ overwrite = false) ->
  (forall st,
      let st' := process_task U cache_dir_arg max_input_examples overwrite
                   completed_file_contents st task in
      output_dirs st' = output_dirs st
      /\ fs st' = fs st
      /\ pipeline st' = pipeline st
      /\ exists r, logs st' = logs st ++ [r])
  /\ (forall registry before after st,
         registry_get registry (name task) = Some task ->
         same_outcome
           (process_tasks U cache_dir_arg max_input_examples overwrite
              completed_file_contents registry
              (before ++ name task :: after) st)
           (process_tasks U cache_dir_arg max_input_examples overwrite
              completed_file_contents registry (before ++ after) st)).
Proof.
  intros Hskip.
  pose proof (fun st => process_task_skip U cache_dir_arg max_input_examples
                          completed_file_contents overwrite st task Hskip)
    as Hstep.
  split.
  - intros st. destruct (Hstep st) as [r Hr]. cbn zeta. rewrite Hr.
    repeat split. now exists r.
  - intros registry before after st Hget.
    rewrite !process_tasks_app.
    destruct (process_tasks U cache_dir_arg max_input_examples overwrite
                completed_file_contents registry before st) as [st1|];
      [|exact I].
    cbn [process_tasks]. rewrite Hget.
    destruct (Hstep st1) as [r ->].
    apply process_tasks_same, same_effects_log.
Qed.

Lemma skip_leaves_everything_witness :
  let task := example_task "t" (Some "cache/t") ["train"] [] in
  let st0 := {| output_dirs := []; fs := example_files;
                pipeline := []; logs := [] |} in
  fs (process_task example_utils "cache" None false "" st0 task)
  = example_files
  /\ pipeline (process_task example_utils "cache" None false "" st0 task) = [].
Proof.
  intros task st0.
  assert (H : supports_caching task = false
              \/ (Py.truthy (cache_dir task) = true /\ false = false))
    by (right; split; reflexivity).
  destruct (proj1 (skip_leaves_everything example_utils "cache" None false ""
                     task H) st0) as (_ & Hf & Hp & _).
  split; [exact Hf | exact Hp].
Defined.





(** ** A whole run of the planner *)

Section RunFacts.

Context (U : SeqioUtils).
Context (cache_dir_arg : string) (max_input_examples : option Z)
        (overwrite : bool) (completed_file_contents : string).

Local Abbreviation body :=
  (process_task U cache_dir_arg max_input_examples overwrite
     completed_file_contents).
Local Abbreviation loop :=
  (process_tasks U cache_dir_arg max_input_examples overwrite
     completed_file_contents).
Local Abbreviation graph_of task :=
  (build_task_graph U max_input_examples completed_file_contents task
     (output_dir_of U cache_dir_arg task)).

(** The cache of [task] may be removed: it was found in the requested
    output directory, and [path] lies there. *)
Local Abbreviation removable task path :=
  (supports_caching task = true
   /\ cache_dir task = Some (output_dir_of U cache_dir_arg task)
   /\ under (output_dir_of U cache_dir_arg task) path = true).

Lemma registry_get_elem registry n task :
  registry_get registry n = Some task -> task ∈ registry /\ name task = n.
Proof.
  unfold registry_get. intros H. apply find_some in H as [Hin Heq].
  split; [now apply list_elem_of_In | now apply String.eqb_eq].
Qed.

Lemma registry_get_name registry n :
  n ∈ map name registry -> is_Some (registry_get registry n).
Proof.
  unfold registry_get. induction registry as [|task registry IH]; cbn.
  - intros H. inversion H.
  - intros H. destruct (String.eqb (name task) n) eqn:E; [eauto|].
    apply IH. apply elem_of_cons in H as [->|H]; [|exact H].
    now rewrite String.eqb_refl in E.
Qed.

Lemma select_tasks_sub names inc exc sel t :
  select_tasks names inc exc = Some sel -> t ∈ sel -> t ∈ names.
Proof.
  unfold select_tasks. intros H Ht.
  destruct (Re.compile _); [|discriminate].
  destruct (Re.compile _); [|discriminate].
  injection H as <-. apply list_elem_of_In, filter_In in Ht as [Ht _].
  now apply list_elem_of_In.
Qed.

Lemma check_splits_fs task output_dir st :
  fs (check_splits U max_input_examples completed_file_contents
        task output_dir st) = fs st.
Proof.
  unfold check_splits. destruct (splits task); [reflexivity|].
  unfold plan_task. now destruct (is_function_source task).
Qed.

Lemma process_task_files st task path :
  fs (body st task) !! path = fs st !! path
  \/ (fs (body st task) !! path = None
      /\ overwrite = true /\ removable task path).
Proof.
  unfold process_task.
  destruct (supports_caching task) eqn:Hs; cbn [negb]; [|now left].
  destruct (Py.truthy (cache_dir task)) eqn:Hc; cbn [andb];
    [|left; now rewrite check_splits_fs].
  destruct overwrite; cbn [negb]; [|now left].
  case_bool_decide as Heq; [|now left].
  rewrite check_splits_fs. cbn [fs log]. rewrite rmtree_lookup.
  destruct (under _ path) eqn:Eu; [right | now left].
  now repeat split.
Qed.

Lemma process_tasks_files registry names st st' path :
  loop registry names st = Some st' ->
  fs st' !! path = fs st !! path
  \/ (fs st' !! path = None /\ overwrite = true
      /\ exists task, task ∈ registry /\ removable task path).
Proof.
  revert st. induction names as [|n names IH]; intros st H.
  - injection H as <-. now left.
  - cbn [process_tasks] in H.
    destruct (registry_get registry n) as [task|] eqn:Eg; [|discriminate].
    apply registry_get_elem in Eg as [Hin _].
    destruct (IH _ H) as [Hsame|Hgone]; [|now right].
    destruct (process_task_files st task path) as [Hstep|(Hnone & Ho & Hr)].
    + left. now rewrite Hsame.
    + right. rewrite Hsame. split; [exact Hnone|]. split; [exact Ho|].
      exists task. now split.
Qed.

(** What the loop body does to the result list and to the pipeline *)
Lemma process_task_cases st task :
  (output_dirs (body st task) = output_dirs st
   /\ pipeline (body st task) = pipeline st)
  \/ (supports_caching task = true /\ splits task <> []
      /\ output_dirs (body st task)
         = output_dirs st ++ [output_dir_of U cache_dir_arg task]
      /\ pipeline (body st task) = pipeline st ++ [graph_of task]).
Proof.
  assert (Hcheck : forall st0,
            output_dirs st0 = output_dirs st -> pipeline st0 = pipeline st ->
            supports_caching task = true ->
            let st1 := check_splits U max_input_examples
                         completed_file_contents task
                         (output_dir_of U cache_dir_arg task) st0 in
            (output_dirs st1 = output_dirs st /\ pipeline st1 = pipeline st)
            \/ (supports_caching task = true /\ splits task <> []
                /\ output_dirs st1
                   = output_dirs st ++ [output_dir_of U cache_dir_arg task]
                /\ pipeline st1 = pipeline st ++ [graph_of task])).
  { intros st0 Ho Hp Hs. cbn zeta.
    destruct (splits task) as [|s ss] eqn:Es.
    - left. unfold check_splits. rewrite Es. now split.
    - right. split; [exact Hs|]. split; [discriminate|].
      destruct (check_splits_plans U max_input_examples
                  completed_file_contents st0 task
                  (output_dir_of U cache_dir_arg task)) as (Ho' & _ & Hp').
      { now rewrite Es. }
      rewrite Ho', Hp', Ho, Hp. now split. }
  unfold process_task.
  destruct (supports_caching task) eqn:Hs; cbn [negb]; [|now left].
  destruct (Py.truthy (cache_dir task) && negb overwrite); [now left|].
  destruct (Py.truthy (cache_dir task) && overwrite);
    [|now apply Hcheck].
  case_bool_decide; [|now left].
  now apply Hcheck.
Qed.

Lemma process_tasks_planned registry names st st'
    (P : string -> task_graph -> Prop) :
  (forall task, task ∈ registry -> supports_caching task = true ->
     splits task <> [] ->
     P (output_dir_of U cache_dir_arg task) (graph_of task)) ->
  Forall2 P (output_dirs st) (pipeline st) ->
  loop registry names st = Some st' ->
  Forall2 P (output_dirs st') (pipeline st').
Proof.
  intros HP. revert st. induction names as [|n names IH]; intros st Hinv H.
  - now injection H as <-.
  - cbn [process_tasks] in H.
    destruct (registry_get registry n) as [task|] eqn:Eg; [|discriminate].
    apply registry_get_elem in Eg as [Hin _].
    refine (IH _ _ H).
    destruct (process_task_cases st task) as [[-> ->]|(Hs & Hne & -> & ->)];
      [exact Hinv|].
    apply Forall2_app; [exact Hinv|]. constructor; [|constructor].
    now apply HP.
Qed.

Lemma process_tasks_found registry names st :
  (forall n, n ∈ names -> n ∈ map name registry) ->
  is_Some (loop registry names st).
Proof.
  revert st. induction names as [|n names IH]; intros st Hsub; [now eexists|].
  cbn [process_tasks].
  destruct (registry_get_name registry n) as [task ->].
  { apply Hsub. now left. }
  apply IH. intros n' Hn'. apply Hsub. now right.
Qed.

End RunFacts.

(** X12: a run of [run_pipeline] creates and changes no file.  A file that
    is gone after the run lay at or below the requested output directory of
    a registered task that supports caching and whose cache was found in
    that very directory, and [overwrite] was set; without [overwrite] the
    files are as they were. *)
Theorem run_deletes_only_overwritten_caches
    (U : SeqioUtils) (cache_dir_arg : string) (max_input_examples : option Z)
    (overwrite : bool) (completed_file_contents : string)
    (registry : list Task) (files : gmap string file)
    (task_names excluded_tasks : option (list string))
    (dirs : list string) (st : planner) :
  run_pipeline U cache_dir_arg max_input_examples overwrite
    completed_file_contents registry files task_names excluded_tasks
  = Some (dirs, st) ->
  (forall path,
      fs st !! path = files !! path
      \/ (fs st !! path = None /\ overwrite = true
          /\ exists task,
               task ∈ registry
               /\ supports_caching task = true
               /\ cache_dir task = Some (output_dir_of U cache_dir_arg task)
               /\ under (output_dir_of U cache_dir_arg task) path = true))
  /\ (overwrite = false -> fs st = files).
Proof.
  unfold run_pipeline. intros H.
  destruct (select_tasks _ _ _) as [sel|]; [|discriminate].
  destruct (process_tasks _ _ _ _ _ _ _ _) as [st1|] eqn:E; [|discriminate].
  injection H as _ <-.
  pose proof (fun path => process_tasks_files U cache_dir_arg
                            max_input_examples overwrite
                            completed_file_contents registry sel _ _ path E)
    as Hfiles.
  split; [exact Hfiles|].
  intros Ho. apply map_eq. intros path.
  destruct (Hfiles path) as [Hsame|(_ & Ht & _)]; [exact Hsame | congruence].
Qed.

Lemma run_deletes_only_overwritten_caches_witness :
  let task := example_task "t" (Some "cache/t") ["train"] [] in
  exists dirs st,
    run_pipeline example_utils "cache" None false "" [task] example_files
      None None = Some (dirs, st)
    /\ fs st = example_files.
Proof.
  intros task.
  destruct (run_pipeline example_utils "cache" None false "" [task]
              example_files None None) as [[dirs st]|] eqn:E;
    [|vm_compute in E; discriminate E].
  exists dirs, st. split; [reflexivity|].
  exact (proj2 (run_deletes_only_overwritten_caches example_utils "cache"
                  None false "" [task] example_files None None dirs st E)
           eq_refl).
Defined.

(** X13: the directories [run_pipeline] returns and the graphs it has added
    to the pipeline correspond one to one and in order: each returned
    directory is the requested output directory of a registered task that
    supports caching and has at least one split, and the graph planned for
    it writes the marker [COMPLETED] in that directory, with the given
    contents as header, after three sinks for each split of the task. *)
Theorem returned_dirs_match_markers
    (U : SeqioUtils) (cache_dir_arg : string) (max_input_examples : option Z)
    (overwrite : bool) (completed_file_contents : string)
    (registry : list Task) (files : gmap string file)
    (task_names excluded_tasks : option (list string))
    (dirs : list string) (st : planner) :
  run_pipeline U cache_dir_arg max_input_examples overwrite
    completed_file_contents registry files task_names excluded_tasks
  = Some (dirs, st) ->
  dirs = output_dirs st
  /\ Forall2
       (fun dir G =>
          tg_task G ∈ registry
          /\ supports_caching (tg_task G) = true
          /\ splits (tg_task G) <> []
          /\ dir = output_dir_of U cache_dir_arg (tg_task G)
          /\ completed_path G = path_join dir "COMPLETED"
          /\ completed_header G = completed_file_contents
          /\ length (completion_values G)
             = (3 * length (splits (tg_task G)))%nat)
       dirs (pipeline st).
Proof.
  unfold run_pipeline. intros H.
  destruct (select_tasks _ _ _) as [sel|]; [|discriminate].
  destruct (process_tasks _ _ _ _ _ _ _ _) as [st1|] eqn:E; [|discriminate].
  injection H as <- <-. split; [reflexivity|].
  refine (process_tasks_planned U cache_dir_arg max_input_examples overwrite
            completed_file_contents registry sel _ _ _ _ _ E).
  - intros task Hin Hs Hne. cbn.
    repeat (split; [done|]).
    rewrite (length_flat_map_const _ _ 3%nat); [lia | reflexivity].
  - constructor.
Qed.

Lemma returned_dirs_match_markers_witness :
  let task := example_task "t" None ["train"; "validation"] [] in
  exists dirs st,
    run_pipeline example_utils "cache" None false "done" [task] example_files
      None None = Some (dirs, st)
    /\ Forall2 (fun dir G => completed_path G = path_join dir "COMPLETED")
         dirs (pipeline st).
Proof.
  intros task.
  destruct (run_pipeline example_utils "cache" None false "done" [task]
              example_files None None) as [[dirs st]|] eqn:E;
    [|vm_compute in E; discriminate E].
  exists dirs, st. split; [reflexivity|].
  eapply Forall2_impl.
  - exact (proj2 (returned_dirs_match_markers example_utils "cache" None
                    false "done" [task] example_files None None dirs st E)).
  - intros dir G H. cbn beta in H. tauto.
Defined.


(** ** The record cap over a whole split *)

Section CapBounds.

Import PreprocessTask.

Lemma take_repeat_length_le {A} n (rest ds : list A) :
  (length (take_repeat n rest ds) <= n)%nat.
Proof.
  revert rest. induction n as [|n IH]; intros rest; [reflexivity|].
  cbn [take_repeat]. destruct rest as [|x rest'].
  - destruct ds as [|x rest']; cbn [length]; [lia|].
    specialize (IH rest'). lia.
  - cbn [length]. specialize (IH rest'). lia.
Qed.

Lemma length_flat_map_le {A B} (g : A -> list B) (l : list A) (c : nat) :
  (forall x, In x l -> (length (g x) <= c)%nat) ->
  (length (flat_map g l) <= length l * c)%nat.
Proof.
  induction l as [|x l IH]; intros H; [reflexivity|].
  cbn [flat_map length]. rewrite length_app.
  specialize (H x (or_introl eq_refl)) as Hx.
  specialize (IH (fun y Hy => H y (or_intror Hy))). lia.
Qed.

Lemma shard_input_quota task split m i :
  0 < m ->
  shard_input task split (Some m) i
  = let ds := get_dataset task split i (length (shards task split)) in
    take_repeat (Z.to_nat (m / Z.of_nat (length (shards task split)))) ds ds.
Proof.
  intros Hm. unfold shard_input, int_truediv.
  rewrite (proj2 (Z.eqb_neq m 0)) by lia.
  destruct (length (shards task split)) as [|n].
  - cbn [Z.of_nat]. rewrite Z.div_0_r. now destruct m.
  - now rewrite Z.quot_div_nonneg by lia.
Qed.

End CapBounds.

(** X15: over a whole split, the records handed to the task's preprocessing
    never outnumber a positive [max_input_examples] (below [2^53]); a cap of
    0 is no cap, every shard is then read in full. *)
Theorem cap_bounds_split_input (task : Task) (split : string) (m : Z) :
  0 <= m < 2 ^ 53 ->
  let inputs :=
    flat_map (PreprocessTask.shard_input task split (Some m))
      (PreprocessTask.shards task split) in
  (m = 0 ->
   inputs = flat_map (PreprocessTask.shard_input task split None)
              (PreprocessTask.shards task split))
  /\ (0 < m -> Z.of_nat (length inputs) <= m).
Proof.
  intros [Hm _]. cbn zeta. split.
  - intros ->. reflexivity.
  - intros Hpos.
    set (n := length (PreprocessTask.shards task split)).
    pose proof (length_flat_map_le
                  (PreprocessTask.shard_input task split (Some m))
                  (PreprocessTask.shards task split)
                  (Z.to_nat (m / Z.of_nat n))) as Hle.
    fold n in Hle.
    assert (Hq : 0 <= m / Z.of_nat n) by (apply Z_div_nonneg_nonneg; lia).
    assert (Hmul : Z.of_nat n * (m / Z.of_nat n) <= m).
    { destruct (Z.eq_dec (Z.of_nat n) 0) as [E|E].
      - rewrite E. lia.
      - apply Z.mul_div_le. lia. }
    assert (Hall : (length (flat_map
                              (PreprocessTask.shard_input task split (Some m))
                              (PreprocessTask.shards task split))
                    <= n * Z.to_nat (m / Z.of_nat n))%nat).
    { apply Hle. intros i _. rewrite shard_input_quota by exact Hpos.
      apply take_repeat_length_le. }
    nia.
Qed.

Lemma cap_bounds_split_input_witness :
  let task := example_task "t" None ["train"]
                [ {[ "inputs" := NdArray int32 [5; 6] ]} ] in
  Z.of_nat (length (flat_map (PreprocessTask.shard_input task "train" (Some 5))
                      (PreprocessTask.shards task "train"))) <= 5.
Proof.
  intros task.
  assert (H : 0 <= 5 < 2 ^ 53) by (split; [lia | reflexivity]).
  apply (proj2 (cap_bounds_split_input task "train" 5 H)). lia.
Defined.

(** X16: a positive [max_input_examples] smaller than the number of shards
    leaves no record at all: the quota of every shard is 0, so every shard
    hands the empty stream to the task's preprocessing. *)
Theorem cap_below_shard_count_reads_nothing
    (task : Task) (split : string) (m : Z) :
  0 < m < Z.of_nat (length (list_shards task split)) ->
  (forall i, PreprocessTask.shard_input task split (Some m) i = [])
  /\ PreprocessTask.expand task split (Some m)
     = flat_map (fun _ => preprocess_precache task [])
         (PreprocessTask.shards task split).
Proof.
  intros [Hm Hlt].
  assert (Hin : forall i, PreprocessTask.shard_input task split (Some m) i = []).
  { intros i. rewrite shard_input_quota by exact Hm. cbn zeta.
    rewrite length_shards, Z.div_small by lia. reflexivity. }
  split; [exact Hin|].
  unfold PreprocessTask.expand, Beam.FlatMap, PreprocessTask._emit_examples.
  apply flat_map_ext. intros i. now rewrite Hin.
Qed.

Lemma cap_below_shard_count_reads_nothing_witness :
  let task := example_task "t" None ["train"]
                [ {[ "inputs" := NdArray int32 [5; 6] ]} ] in
  PreprocessTask.expand task "train" (Some 1) = [].
Proof.
  intros task.
  assert (H : 0 < 1 < Z.of_nat (length (list_shards task "train")))
    by (cbn; lia).
  rewrite (proj2 (cap_below_shard_count_reads_nothing task "train" 1 H)).
  reflexivity.
Defined.

(** ** Counting and logging in [_emit_examples] *)

Section EmitFacts.

Implicit Types (ns : string) (ds : list example) (i : Z).

(** [i & (i - 1) == 0] for a positive index: [i] is a power of two. *)
Lemma land_pred_zero i :
  0 < i -> Z.land i (i - 1) = 0 <-> exists k, 0 <= k /\ i = 2 ^ k.
Proof.
  intros Hi. split.
  - intros H. exists (Z.log2 i). split; [apply Z.log2_nonneg|].
    destruct (Z.log2_spec i Hi) as [Hlo Hhi].
    assert (Hpos : 0 < 2 ^ Z.log2 i)
      by (apply Z.pow_pos_nonneg; [lia | apply Z.log2_nonneg]).
    destruct (Z.eq_dec i (2 ^ Z.log2 i)) as [E|Hne]; [exact E | exfalso].
    assert (Hl : Z.log2 (i - 1) = Z.log2 i).
    { apply Z.log2_unique; [apply Z.log2_nonneg | lia]. }
    assert (Hb1 : Z.testbit i (Z.log2 i) = true) by (apply Z.bit_log2; lia).
    assert (Hb2 : Z.testbit (i - 1) (Z.log2 i) = true).
    { rewrite <- Hl. apply Z.bit_log2. lia. }
    assert (Hb : Z.testbit (Z.land i (i - 1)) (Z.log2 i) = true)
      by now rewrite Z.land_spec, Hb1, Hb2.
    rewrite H, Z.bits_0 in Hb. discriminate.
  - intros (k & Hk & ->).
    replace (2 ^ k - 1) with (Z.ones k) by (rewrite Z.ones_equiv; lia).
    rewrite Z.land_ones by lia. apply Z.mod_same.
    assert (0 < 2 ^ k) by now apply Z.pow_pos_nonneg. lia.
Qed.

Lemma emit_loop_logs ns i0 ds i ex :
  LogExample i ex ∈ emit_loop ns i0 ds
  <-> i0 <= i /\ ds !! Z.to_nat (i - i0) = Some ex /\ Z.land i (i - 1) = 0.
Proof.
  revert i0. induction ds as [|ex0 ds IH]; intros i0; cbn [emit_loop].
  - split; [intros H; inversion H | intros (_ & H & _); discriminate H].
  - rewrite elem_of_cons, elem_of_app, elem_of_cons, IH.
    split.
    + intros [H|[H|[H|(Hle & Hl & Hz)]]]; try discriminate H.
      * destruct (Z.land i0 (i0 - 1) =? 0) eqn:E; [|inversion H].
        apply list_elem_of_singleton in H. injection H as -> ->.
        rewrite Z.sub_diag. split; [lia|]. split; [reflexivity|].
        now apply Z.eqb_eq.
      * split; [lia|]. split; [|exact Hz].
        replace (Z.to_nat (i - i0)) with (S (Z.to_nat (i - (i0 + 1)))) by lia.
        exact Hl.
    + intros (Hle & Hl & Hz).
      destruct (Z.eq_dec i i0) as [->|Hne].
      * right. left. rewrite Z.sub_diag in Hl. injection Hl as ->.
        rewrite (proj2 (Z.eqb_eq _ _) Hz). apply list_elem_of_here.
      * right. right. right. split; [lia|]. split; [|exact Hz].
        replace (Z.to_nat (i - i0)) with (S (Z.to_nat (i - (i0 + 1)))) in Hl
          by lia.
        exact Hl.
Qed.

Lemma yielded_app (l1 l2 : list effect) :
  yielded (l1 ++ l2) = yielded l1 ++ yielded l2.
Proof. unfold yielded. apply flat_map_app. Qed.

Lemma counted_app ns c (l1 l2 : list effect) :
  counted ns c (l1 ++ l2) = (counted ns c l1 + counted ns c l2)%nat.
Proof. unfold counted. now rewrite List.filter_app, length_app. Qed.

Lemma import_modules_silent ns c modules :
  yielded (_import_modules modules) = []
  /\ counted ns c (_import_modules modules) = 0%nat.
Proof.
  unfold _import_modules.
  induction (List.filter _ modules) as [|m l [IH1 IH2]]; [now split|].
  split; [exact IH1 | exact IH2].
Qed.

Lemma emit_loop_yields ns i ds : yielded (emit_loop ns i ds) = ds.
Proof.
  revert i. induction ds as [|ex ds IH]; intros i; [reflexivity|].
  cbn [emit_loop]. change (IncrementCounter ns "examples" :: ?l)
    with ([IncrementCounter ns "examples"] ++ l).
  rewrite !yielded_app.
  change (YieldExample ex :: emit_loop ns (i + 1) ds)
    with ([YieldExample ex] ++ emit_loop ns (i + 1) ds).
  rewrite yielded_app, IH. now destruct (Z.land i (i - 1) =? 0).
Qed.

Lemma emit_loop_counts ns i ds :
  counted ns "examples" (emit_loop ns i ds) = length ds
  /\ counted ns "input-shards" (emit_loop ns i ds) = 0%nat.
Proof.
  revert i. induction ds as [|ex ds IH]; intros i; [now split|].
  destruct (IH (i + 1)) as [IH1 IH2].
  cbn [emit_loop].
  change (IncrementCounter ns "examples" :: ?l)
    with ([IncrementCounter ns "examples"] ++ l).
  change (YieldExample ex :: emit_loop ns (i + 1) ds)
    with ([YieldExample ex] ++ emit_loop ns (i + 1) ds).
  rewrite !counted_app, IH1, IH2.
  unfold counted. cbn [List.filter increments].
  rewrite String.eqb_refl. cbn [andb String.eqb].
  destruct (Z.land i (i - 1) =? 0); cbn; now split.
Qed.

End EmitFacts.

(** X17: [_emit_examples] logs the record of index [i] exactly when [i] is
    0 or a power of two: these are the indices with [i & (i - 1) == 0]. *)
Theorem examples_logged_at_powers_of_two
    (task : Task) (split : string) (max_input_examples : option Z)
    (modules_to_import : list string) (shard_index : nat)
    (i : Z) (ex : example) :
  LogExample i ex
    ∈ emit_effects task split max_input_examples modules_to_import shard_index
  <-> 0 <= i
      /\ PreprocessTask._emit_examples task split max_input_examples
           shard_index !! Z.to_nat i = Some ex
      /\ (i = 0 \/ exists k, 0 <= k /\ i = 2 ^ k).
Proof.
  unfold emit_effects.
  assert (Himp : ~ LogExample i ex ∈ _import_modules modules_to_import).
  { unfold _import_modules. intros H.
    apply list_elem_of_In, in_map_iff in H as (m & Hm & _). discriminate Hm. }
  rewrite elem_of_app, elem_of_app, emit_loop_logs, Z.sub_0_r.
  split.
  - intros [H|[H|(Hle & Hl & Hz)]]; [contradiction | |].
    + apply elem_of_cons in H as [H|H]; [discriminate H|].
      apply list_elem_of_singleton in H. discriminate H.
    + split; [exact Hle|]. split; [exact Hl|].
      destruct (Z.eq_dec i 0) as [->|Hne]; [now left | right].
      apply land_pred_zero; [lia | exact Hz].
  - intros (Hle & Hl & Hpow). right. right.
    split; [exact Hle|]. split; [exact Hl|].
    destruct Hpow as [->|Hk]; [reflexivity|].
    apply land_pred_zero; [|exact Hk].
    destruct Hk as (k & Hk & ->). now apply Z.pow_pos_nonneg.
Qed.

Lemma examples_logged_at_powers_of_two_witness :
  let ex : example := {[ "inputs" := NdArray int32 [5; 6] ]} in
  let task := example_task "t" None ["train"] [ex; ex; ex; ex; ex] in
  LogExample 4 ex ∈ emit_effects task "train" None [] 0
  /\ ~ LogExample 3 ex ∈ emit_effects task "train" None [] 0.
Proof.
  intros ex task. split.
  - apply (proj2 (examples_logged_at_powers_of_two task "train" None [] 0 4 ex)).
    split; [lia|]. split; [reflexivity|]. right. exists 2. split; [lia|reflexivity].
  - intros H.
    apply (proj1 (examples_logged_at_powers_of_two task "train" None [] 0 3 ex))
      in H as (_ & _ & [H|(k & Hk & H)]); [discriminate H|].
    destruct (Z.eq_dec k 0) as [->|Hk0]; [discriminate H|].
    destruct (Z.eq_dec k 1) as [->|Hk1]; [discriminate H|].
    assert (Hge : 2 ^ 2 <= 2 ^ k) by (apply Z.pow_le_mono_r; lia).
    rewrite <- H in Hge. revert Hge. cbn. lia.
Defined.

(** X18: the records [_emit_examples] yields for a shard are the
    preprocessed records of that shard, in order; it increments the counter
    "examples" of the split once for each of them and the counter
    "input-shards" once, whatever it logs or imports. *)
Theorem counters_match_yielded_records
    (task : Task) (split : string) (max_input_examples : option Z)
    (modules_to_import : list string) (shard_index : nat) :
  let effects := emit_effects task split max_input_examples
                   modules_to_import shard_index in
  let namespace := name task +:+ "_" +:+ split in
  yielded effects
  = PreprocessTask._emit_examples task split max_input_examples shard_index
  /\ counted namespace "examples" effects = length (yielded effects)
  /\ counted namespace "input-shards" effects = 1%nat.
Proof.
  cbn zeta. unfold emit_effects.
  set (ns := name task +:+ "_" +:+ split).
  set (out := PreprocessTask._emit_examples task split max_input_examples
                shard_index).
  destruct (import_modules_silent ns "examples" modules_to_import) as [Hy Hc1].
  destruct (import_modules_silent ns "input-shards" modules_to_import)
    as [_ Hc2].
  destruct (emit_loop_counts ns 0 out) as [Hl1 Hl2].
  assert (Hyield : yielded (_import_modules modules_to_import
                            ++ [LogShard shard_index;
                                IncrementCounter ns "input-shards"]
                            ++ emit_loop ns 0 out) = out).
  { now rewrite !yielded_app, Hy, emit_loop_yields. }
  rewrite Hyield, !counted_app, Hc1, Hc2, Hl1, Hl2.
  unfold counted. cbn [List.filter increments].
  rewrite String.eqb_refl. cbn. now repeat split.
Qed.

(** ** Selection, pattern by pattern *)

Section PatternFacts.

Import Re.

Implicit Types (p t s : string) (ps : list string).

Lemma compile_pattern_branches p :
  is_Some (compile p) <-> is_Some (pattern_branches p).
Proof.
  unfold compile. destruct (pattern_branches p); split; intros [x H];
    try discriminate H; eauto.
Qed.

(** Patterns that compile one by one compile when joined, and the joined
    expression selects what some pattern selects. *)
Lemma compile_parsed ps :
  Forall (fun p => is_Some (compile p)) ps -> ps <> [] ->
  exists R, compile (regex_source ps) = Some R
            /\ forall t, match_ R t = existsb (fun p => selects p t) ps.
Proof.
  intros Hall Hne.
  assert (Hex : exists bss,
             Forall2 (fun p bs => pattern_branches p = Some bs) ps bss).
  { clear Hne. induction Hall as [|p ps Hp _ [bss IH]].
    - exists []. constructor.
    - apply compile_pattern_branches in Hp as [bs Hbs].
      exists (bs :: bss). now constructor. }
  destruct Hex as [bss Hbss].
  destruct (compile_regex_source ps bss Hbss Hne) as (R & HR & Hm).
  exists R. split; [exact HR|]. intros t. rewrite Hm. clear HR Hm Hne Hall.
  induction Hbss as [|p bs ps bss Hp _ IH]; [reflexivity|].
  cbn [existsb]. now rewrite IH, (selects_branches p bs t Hp).
Qed.

Lemma compile_dot_star : is_Some (compile ".*").
Proof. now eexists. Qed.

Lemma compile_empty : is_Some (compile "").
Proof. now eexists. Qed.

Lemma py_or_cases {A} (xs : option (list A)) (d : list A) :
  (py_or xs [] = [] /\ py_or xs d = d)
  \/ (py_or xs [] <> [] /\ py_or xs d = py_or xs []).
Proof. destruct xs as [[|x l]|]; [now left | right | now left]. now split. Qed.

Lemma select_tasks_by_pattern names (inc exc : option (list string)) :
  Forall (fun p => is_Some (compile p)) (py_or inc []) ->
  Forall (fun p => is_Some (compile p)) (py_or exc []) ->
  select_tasks names inc exc
  = Some (List.filter
            (fun t => existsb (fun p => selects p t) (py_or inc [".*"])
                      && negb (existsb (fun q => selects q t)
                                 (py_or exc [""])))
            names).
Proof.
  intros Hinc Hexc. unfold select_tasks.
  assert (Hi : Forall (fun p => is_Some (compile p)) (py_or inc [".*"])
               /\ py_or inc [".*"] <> []).
  { destruct (py_or_cases inc [".*"]) as [[_ ->]|[Hne ->]].
    - split; [|discriminate]. repeat constructor. apply compile_dot_star.
    - now split. }
  assert (He : Forall (fun p => is_Some (compile p)) (py_or exc [""])
               /\ py_or exc [""] <> []
               /\ regex_source (py_or exc []) = regex_source (py_or exc [""])).
  { destruct (py_or_cases exc [""]) as [[E ->]|[Hne ->]].
    - split; [|split; [discriminate|]].
      + repeat constructor. apply compile_empty.
      + rewrite E. apply regex_source_nil.
    - now repeat split. }
  destruct Hi as [Hi1 Hi2]. destruct He as (He1 & He2 & ->).
  destruct (compile_parsed _ Hi1 Hi2) as (Ri & -> & Hmi).
  destruct (compile_parsed _ He1 He2) as (Re & -> & Hme).
  f_equal. apply filter_ext. intros t. now rewrite Hmi, Hme.
Qed.

(** *** Plain names *)

Lemma plain_char_spec c :
  plain_char c = true ->
  Ascii.eqb c "\" = false /\ unsupported c = false /\ token_of c = TChar c.
Proof.
  unfold plain_char, token_of. cbn [existsb].
  destruct (unsupported c); [discriminate|].
  destruct (Ascii.eqb c "\"); [discriminate|].
  destruct (Ascii.eqb c "."); [discriminate|].
  destruct (Ascii.eqb c "*"); [discriminate|].
  destruct (Ascii.eqb c "|"); [discriminate|].
  destruct (Ascii.eqb c "("); [discriminate|].
  destruct (Ascii.eqb c ")"); [discriminate|].
  now intros _.
Qed.

Lemma lex_plain s :
  plain_name s = true ->
  lex s = Some (map TChar (list_ascii_of_string s)).
Proof.
  unfold lex. induction s as [|c s IH]; [reflexivity|].
  cbn [plain_name]. intros H. apply andb_prop in H as [Hc Hs].
  apply plain_char_spec in Hc as (H1 & H2 & H3).
  cbn [lex_from list_ascii_of_string map]. now rewrite H1, H2, (IH Hs), H3.
Qed.

Lemma run_plain (cs : list ascii) (f : frame) (st : list frame) :
  exists b,
    run (map TChar cs) (f :: st)
    = Some (Frame (done_ f) (cur f ++ map Chr cs) b :: st).
Proof.
  revert f. induction cs as [|c cs IH]; intros f.
  - exists (rep f). cbn. rewrite app_nil_r. now destruct f.
  - cbn [map run step]. destruct (IH (push (Chr c) true f)) as [b ->].
    exists b. unfold push. cbn [done_ cur]. now rewrite <- app_assoc.
Qed.

Lemma pattern_branches_plain s :
  plain_name s = true ->
  pattern_branches s = Some [map Chr (list_ascii_of_string s)].
Proof.
  intros H. unfold pattern_branches. rewrite (lex_plain s H).
  destruct (run_plain (list_ascii_of_string s) empty_frame []) as [b ->].
  reflexivity.
Qed.

Lemma ends_plain s t :
  existsb (String.eqb "") (ends (seqs (map Chr (list_ascii_of_string s))) t)
  = String.eqb s t.
Proof.
  revert t. induction s as [|c s IH]; intros t.
  - cbn. now rewrite orb_false_r.
  - cbn [list_ascii_of_string map seqs fold_right ends].
    change (fold_right Seq Eps (map Chr (list_ascii_of_string s)))
      with (seqs (map Chr (list_ascii_of_string s))).
    destruct t as [|c' t]; [reflexivity|].
    cbn [String.eqb]. destruct (Ascii.eqb c c'); [|reflexivity].
    cbn [flat_map]. rewrite app_nil_r. apply IH.
Qed.

Lemma selects_plain s t : plain_name s = true -> selects s t = String.eqb s t.
Proof.
  intros H.
  assert (Hs : single_branch s) by (eexists; now apply pattern_branches_plain).
  rewrite (selects_single_branch s t Hs).
  unfold fullmatch, compile. rewrite (pattern_branches_plain s H).
  cbn [map alts fold_right ends]. rewrite app_nil_r. apply ends_plain.
Qed.

Lemma compile_plain s : plain_name s = true -> is_Some (compile s).
Proof.
  intros H. apply compile_pattern_branches.
  rewrite (pattern_branches_plain s H). now eexists.
Qed.

End PatternFacts.



(** X20: a list of include patterns that are plain names (no character with
    a meaning in a regular expression) selects exactly the registered tasks
    that bear one of these names, but for a task with the empty name, which
    the default exclude expression removes. *)
Theorem plain_names_select_themselves
    (registry_names : list string) (ps : list string) :
  Forall (fun p => plain_name p = true) ps ->
  ps <> [] ->
  select_tasks registry_names (Some ps) None
  = Some (List.filter
            (fun t => existsb (fun p => String.eqb p t) ps
                      && negb (String.eqb t ""))
            registry_names).
Proof.
  intros Hplain Hne.
  assert (Hps : py_or (Some ps) [] = ps /\ py_or (Some ps) [".*"] = ps).
  { destruct ps; [congruence | now split]. }
  destruct Hps as [Hps1 Hps2].
  rewrite select_tasks_by_pattern.
  - f_equal. rewrite Hps2. apply filter_ext. intros t. f_equal.
    + clear Hne Hps1 Hps2.
      induction Hplain as [|p ps Hp _ IH]; [reflexivity|].
      cbn [existsb]. now rewrite IH, (selects_plain p t Hp).
    + cbn [py_or existsb]. rewrite (selects_plain "" t eq_refl), orb_false_r.
      f_equal. now destruct t.
  - rewrite Hps1. eapply Forall_impl; [exact Hplain|].
    intros p Hp. now apply compile_plain.
  - constructor.
Qed.

Lemma plain_names_select_themselves_witness :
  select_tasks ["t5:tfds_task"; "t5:tfds_task_v2"; "cached_task"]
    (Some ["t5:tfds_task"]) None
  = Some ["t5:tfds_task"].
Proof.
  rewrite (plain_names_select_themselves
             ["t5:tfds_task"; "t5:tfds_task_v2"; "cached_task"]
             ["t5:tfds_task"]).
  - reflexivity.
  - repeat constructor.
  - discriminate.
Defined.

(** ** Runs of the pipeline of one task *)

Section RunnerFacts.

Context (seqio_version : string) (G : task_graph).

Local Abbreviation valid := (valid_trace seqio_version G).
Local Abbreviation writes := (sink_writes seqio_version G).

Lemma valid_trace_suffix (newer older : list event) :
  valid (newer ++ older) -> valid older.
Proof.
  induction newer as [|e newer IH]; [auto|].
  cbn [app]. intros H. apply IH. now inversion H.
Qed.

Lemma trace_done_sound tr n c :
  valid tr -> Done n c ∈ tr -> n ∈ completion_values G /\ writes n c.
Proof.
  induction 1 as [|n0 c0 tr _ IH Hn _ Hw|n0 tr _ IH _ _|tr _ IH _ _|tr _ IH _];
    intros Hin.
  - inversion Hin.
  - apply elem_of_cons in Hin as [[= -> ->]|Hin]; [now split | auto].
  - apply elem_of_cons in Hin as [[=]|Hin]; auto.
  - apply elem_of_cons in Hin as [[=]|Hin]; auto.
  - apply elem_of_cons in Hin as [[=]|Hin]; auto.
Qed.

Lemma trace_failed_sound tr n :
  valid tr -> Failed n ∈ tr -> n ∈ completion_values G.
Proof.
  induction 1 as [|n0 c0 tr _ IH _ _ _|n0 tr _ IH Hn _|tr _ IH _ _|tr _ IH _];
    intros Hin.
  - inversion Hin.
  - apply elem_of_cons in Hin as [[=]|Hin]; auto.
  - apply elem_of_cons in Hin as [[= ->]|Hin]; auto.
  - apply elem_of_cons in Hin as [[=]|Hin]; auto.
  - apply elem_of_cons in Hin as [[=]|Hin]; auto.
Qed.

(** A sink runs once: it does not both complete and fail. *)
Lemma trace_once tr n c :
  valid tr -> Done n c ∈ tr -> Failed n ∈ tr -> False.
Proof.
  induction 1 as [|n0 c0 tr _ IH _ Hns _|n0 tr _ IH _ Hns|tr _ IH _ _|tr _ IH _];
    intros Hd Hf.
  - inversion Hd.
  - apply elem_of_cons in Hf as [[=]|Hf].
    apply elem_of_cons in Hd as [[= -> ->]|Hd]; [|auto].
    apply Hns. now left.
  - apply elem_of_cons in Hd as [[=]|Hd].
    apply elem_of_cons in Hf as [[= ->]|Hf]; [|auto].
    apply Hns. right. now exists c.
  - apply elem_of_cons in Hd as [[=]|Hd].
    apply elem_of_cons in Hf as [[=]|Hf]. auto.
  - apply elem_of_cons in Hd as [[=]|Hd].
    apply elem_of_cons in Hf as [[=]|Hf]. auto.
Qed.

Lemma filter_none {A} (l : list A) : List.filter (fun _ => false) l = [].
Proof. induction l as [|x l IH]; [reflexivity | exact IH]. Qed.

Lemma string_app_empty_r (s : string) : s +:+ "" = s.
Proof.
  induction s as [|c s IH]; [reflexivity|]. now rewrite app_cons, IH.
Qed.

Lemma marker_body_is_header : marker_body G = completed_header G.
Proof.
  unfold marker_body, Beam.text_file_body. rewrite filter_none.
  cbn [map String.concat]. now rewrite !string_app_empty_r.
Qed.

Lemma marker_after_sinks (newer older : list event) body :
  valid (newer ++ MarkerDone body :: older) ->
  body = completed_header G
  /\ (forall n, n ∈ completion_values G ->
        exists c, Done n c ∈ older /\ writes n c)
  /\ (forall n, ~ Failed n ∈ newer ++ MarkerDone body :: older).
Proof.
  intros Hv.
  pose proof (valid_trace_suffix _ _ Hv) as Hm.
  inversion Hm as [| | |tr Hold Hall _ Hbody|]; subst.
  split; [apply marker_body_is_header|].
  assert (Hsinks : forall n, n ∈ completion_values G ->
            exists c, Done n c ∈ older /\ writes n c).
  { intros n Hn. destruct (Hall n Hn) as [c Hc]. exists c.
    split; [exact Hc|]. exact (proj2 (trace_done_sound _ _ _ Hold Hc)). }
  split; [exact Hsinks|].
  intros n Hf.
  pose proof (trace_failed_sound _ _ Hv Hf) as Hn.
  destruct (Hsinks n Hn) as (c & Hc & _).
  apply (trace_once _ n c Hv); [|exact Hf].
  apply elem_of_app. right. now right.
Qed.

End RunnerFacts.

Section GraphFacts.

Context (U : SeqioUtils) (max_input_examples : option Z)
        (completed_file_contents : string).
Context (task : Task) (output_dir : string).

Local Abbreviation graph :=
  (build_task_graph U max_input_examples completed_file_contents
     task output_dir).

Lemma graph_node n :
  n ∈ completion_values graph ->
  wn_split n ∈ splits task
  /\ (wn_sink n
      = WriteExampleTfRecord
          (get_cached_tfrecord_prefix U output_dir (wn_split n))
          (length (list_shards task (wn_split n)))
      \/ wn_sink n
         = GetInfoWriteJson (length (list_shards task (wn_split n)))
             (get_cached_info_path U output_dir (wn_split n))
      \/ wn_sink n
         = GetStatsWriteJson (output_features task)
             (get_cached_stats_path U output_dir (wn_split n))).
Proof.
  cbn [completion_values build_task_graph]. intros H.
  apply list_elem_of_In, in_flat_map in H as (s & Hs & Hn).
  apply list_elem_of_In in Hs. unfold split_nodes in Hn.
  rewrite length_shards in Hn.
  destruct Hn as [<-|[<-|[<-|[]]]]; cbn [wn_split wn_sink]; auto.
Qed.

Lemma records_and_info_agree seqio_version tr n1 n2 k recs info :
  valid_trace seqio_version graph tr ->
  Done n1 (FRecords k recs) ∈ tr ->
  Done n2 (FInfo info) ∈ tr ->
  wn_split n1 = wn_split n2 ->
  k = length (list_shards task (wn_split n1))
  /\ recs ≡ₚ PreprocessTask.expand task (wn_split n1) max_input_examples
  /\ ((info = GetInfo.EmptyDict /\ recs = [])
      \/ exists features, info = GetInfo.Info k features seqio_version).
Proof.
  intros Hv H1 H2 Hsplit.
  destruct (trace_done_sound _ _ _ _ _ Hv H1) as [Hn1 Hw1].
  destruct (trace_done_sound _ _ _ _ _ Hv H2) as [Hn2 Hw2].
  apply graph_node in Hn1 as [_ Hs1]. apply graph_node in Hn2 as [_ Hs2].
  unfold sink_writes, examples_of in Hw1, Hw2.
  cbn [tg_task tg_max_input_examples build_task_graph] in Hw1, Hw2.
  destruct Hs1 as [E1|[E1|E1]]; rewrite E1 in Hw1.
  2:{ destruct Hw1 as (? & ? & _ & _ & [=]). }
  2:{ destruct Hw1 as (? & _ & [=]). }
  destruct Hw1 as (records & Hperm & [= -> ->]).
  split; [reflexivity|]. split; [exact Hperm|].
  destruct Hs2 as [E2|[E2|E2]]; rewrite E2 in Hw2.
  1:{ destruct Hw2 as (? & _ & [=]). }
  2:{ destruct Hw2 as (? & _ & [=]). }
  destruct Hw2 as (smp & info' & Hsmp & Hinfo & [= ->]).
  rewrite <- Hsplit in Hsmp, Hinfo.
  unfold sample_one in Hsmp.
  destruct (PreprocessTask.expand task (wn_split n1) max_input_examples)
    as [|x l] eqn:E.
  - subst smp. injection Hinfo as <-. left. split; [reflexivity|].
    now apply Permutation_nil_r in Hperm.
  - destruct Hsmp as (ex & _ & ->). injection Hinfo as <-. right. eauto.
Qed.

End GraphFacts.


Section ExampleRun.

Lemma example_graph_nodes :
  completion_values example_graph
  = [example_records_node; example_info_node; example_stats_node].
Proof. vm_compute. reflexivity. Qed.

Lemma example_graph_empty n :
  n ∈ completion_values example_graph -> examples_of example_graph n = [].
Proof.
  rewrite example_graph_nodes. intros H.
  repeat (apply elem_of_cons in H as [->|H]); try reflexivity;
    try (now inversion H).
Qed.

Lemma example_trace_valid : valid_trace "0.0.0" example_graph example_trace.
Proof.
  assert (H1 : example_records_node ∈ completion_values example_graph)
    by (rewrite example_graph_nodes; apply list_elem_of_here).
  assert (H2 : example_info_node ∈ completion_values example_graph)
    by (rewrite example_graph_nodes; apply list_elem_of_further,
          list_elem_of_here).
  assert (H3 : example_stats_node ∈ completion_values example_graph)
    by (rewrite example_graph_nodes;
        apply list_elem_of_further, list_elem_of_further, list_elem_of_here).
  assert (V1 : valid_trace "0.0.0" example_graph
                 [Done example_records_node (FRecords 2 [])]).
  { apply trace_done; [constructor | exact H1 | |].
    - intros [H|[c H]]; inversion H.
    - exists []. split; [|reflexivity].
      now rewrite (example_graph_empty _ H1). }
  assert (V2 : valid_trace "0.0.0" example_graph
                 [Done example_info_node (FInfo GetInfo.EmptyDict);
                  Done example_records_node (FRecords 2 [])]).
  { apply trace_done; [exact V1 | exact H2 | |].
    - intros [H|[c H]];
        repeat (apply elem_of_cons in H as [H|H]; [discriminate H|]);
        inversion H.
    - exists [], GetInfo.EmptyDict. rewrite (example_graph_empty _ H2).
      now repeat split. }
  assert (V3 : valid_trace "0.0.0" example_graph example_sink_events).
  { apply trace_done; [exact V2 | exact H3 | |].
    - intros [H|[c H]];
        repeat (apply elem_of_cons in H as [H|H]; [discriminate H|]);
        inversion H.
    - exists {[ "examples" := 0 ]}. rewrite (example_graph_empty _ H3).
      split; [apply expand_nil | reflexivity]. }
  apply trace_marker; [exact V3 | |].
  - intros n Hn. rewrite example_graph_nodes in Hn.
    apply elem_of_cons in Hn as [->|Hn];
      [eexists; apply list_elem_of_further, list_elem_of_further,
         list_elem_of_here|].
    apply elem_of_cons in Hn as [->|Hn];
      [eexists; apply list_elem_of_further, list_elem_of_here|].
    apply list_elem_of_singleton in Hn as ->.
    eexists; apply list_elem_of_here.
  - intros [H|[body H]];
      repeat (apply elem_of_cons in H as [H|H]; [discriminate H|]);
      inversion H.
Qed.

End ExampleRun.




(** ** What the statistics do not depend on *)

Section StatsFrame.

Implicit Types (feats extra : gset string) (exs : list example) (f : string).

Lemma expand_counts_perm feats feats' exs exs' :
  length exs = length exs' ->
  GetStats.token_counts feats exs ≡ₚ GetStats.token_counts feats' exs' ->
  GetStats.expand feats exs = GetStats.expand feats' exs'.
Proof.
  intros Hlen Hp. rewrite !expand_unfold. apply merge_dicts_perm.
  apply Permutation_map. rewrite Hlen.
  apply perm_skip, Permutation_app.
  - apply CombinePerKey_perm; [apply sum_perm | exact Hp].
  - apply Permutation_map, CombinePerKey_perm; [apply max_perm | exact Hp].
Qed.

Lemma count_agree f (ex ex' : example) :
  ex !! f = ex' !! f -> GetStats._count f ex = GetStats._count f ex'.
Proof. unfold GetStats._count. now intros ->. Qed.

Lemma token_counts_agree feats exs exs' :
  Forall2 (fun ex ex' : example => forall f, f ∈ feats -> ex !! f = ex' !! f)
    exs exs' ->
  GetStats.token_counts feats exs = GetStats.token_counts feats exs'.
Proof.
  intros H. unfold GetStats.token_counts. f_equal.
  apply map_ext_in. intros f Hf.
  apply list_elem_of_In, elem_of_elements in Hf.
  unfold GetStats._count_tokens, Beam.FlatMap.
  induction H as [|ex ex' exs exs' Hex _ IH]; [reflexivity|].
  cbn [flat_map]. now rewrite IH, (count_agree f ex ex' (Hex f Hf)).
Qed.

Lemma count_absent f (ex : example) :
  ~ int_array_feature f ex -> GetStats._count f ex = [].
Proof.
  unfold int_array_feature, GetStats._count. intros H.
  destruct (ex !! f) as [[dt data|dt]|]; try reflexivity.
  destruct (GetStats.is_int32_or_int64 dt) eqn:E; [|reflexivity].
  exfalso. apply H. now exists dt, data.
Qed.

Lemma count_tokens_absent f exs :
  Forall (fun ex => ~ int_array_feature f ex) exs ->
  GetStats._count_tokens exs f = [].
Proof.
  unfold GetStats._count_tokens, Beam.FlatMap.
  induction 1 as [|ex exs Hex _ IH]; [reflexivity|].
  cbn [flat_map]. now rewrite IH, (count_absent f ex Hex).
Qed.

Lemma expand_absent_feature feats f exs :
  Forall (fun ex => ~ int_array_feature f ex) exs ->
  GetStats.expand ({[ f ]} ∪ feats) exs = GetStats.expand feats exs.
Proof.
  intros Habs. destruct (decide (f ∈ feats)) as [Hin|Hout].
  - now rewrite (subseteq_union_1_L {[ f ]} feats)
      by now apply singleton_subseteq_l.
  - apply expand_counts_perm; [reflexivity|].
    unfold GetStats.token_counts, Beam.Flatten.
    rewrite <- !flat_map_concat_map.
    rewrite (Permutation_flat_map _ (elements_union_singleton feats f Hout)).
    cbn [flat_map]. now rewrite (count_tokens_absent f exs Habs).
Qed.

Lemma expand_absent_features feats extra exs :
  (forall f, f ∈ extra -> Forall (fun ex => ~ int_array_feature f ex) exs) ->
  GetStats.expand (extra ∪ feats) exs = GetStats.expand feats exs.
Proof.
  induction extra as [|f extra Hf IH] using set_ind_L; intros H.
  - now rewrite (left_id_L ∅ (∪)).
  - rewrite <- (assoc_L (∪)), expand_absent_feature.
    + apply IH. intros g Hg. apply H. now apply elem_of_union_r.
    + apply H. now apply elem_of_union_l, elem_of_singleton.
Qed.

End StatsFrame.

(** X23: [GetStats] reads the records through the declared features only:
    two splits whose records agree, one by one, on every declared feature
    have the same statistics, whatever else the records carry. *)
Theorem stats_read_declared_features_only
    (feats : gset string) (exs exs' : list example) :
  Forall2 (fun ex ex' : example => forall f, f ∈ feats -> ex !! f = ex' !! f)
    exs exs' ->
  GetStats.expand feats exs = GetStats.expand feats exs'.
Proof.
  intros H. rewrite !expand_unfold.
  now rewrite (token_counts_agree feats exs exs' H), (Forall2_length _ _ _ H).
Qed.

Lemma stats_read_declared_features_only_witness :
  let a : example :=
    {[ "f" := NdArray int32 [2; 2; 1]; "id" := NdArray int64 [7] ]} in
  let b : example := {[ "f" := NdArray int32 [2; 2; 1] ]} in
  GetStats.expand {[ "f" ]} [a] = GetStats.expand {[ "f" ]} [b].
Proof.
  intros a b. apply stats_read_declared_features_only.
  constructor; [|constructor].
  intros f Hf. apply elem_of_singleton in Hf as ->. reflexivity.
Defined.

(** X24: declaring further output features that no record of the split
    carries as an int32 or int64 array changes nothing in the statistics:
    such features are text, floating-point arrays or absent, and leave no
    entry. *)
Theorem stats_ignore_features_without_int_arrays
    (feats extra : gset string) (exs : list example) :
  (forall f, f ∈ extra -> Forall (fun ex => ~ int_array_feature f ex) exs) ->
  GetStats.expand (extra ∪ feats) exs = GetStats.expand feats exs.
Proof. apply expand_absent_features. Qed.

Lemma stats_ignore_features_without_int_arrays_witness :
  let a : example :=
    {[ "f" := NdArray int32 [2; 2; 1]; "text" := Scalar string_ ]} in
  GetStats.expand ({[ "text" ]} ∪ {[ "f" ]}) [a]
  = GetStats.expand {[ "f" ]} [a].
Proof.
  intros a. apply stats_ignore_features_without_int_arrays.
  intros f Hf. apply elem_of_singleton in Hf as ->.
  constructor; [|constructor].
  intros (dt & data & H & _). discriminate H.
Defined.

(** ** Which directories a run returns *)

Section ReturnedDirs.

Context (U : SeqioUtils).
Context (cache_dir_arg : string) (max_input_examples : option Z)
        (overwrite : bool) (completed_file_contents : string).

Local Abbreviation body :=
  (process_task U cache_dir_arg max_input_examples overwrite
     completed_file_contents).
Local Abbreviation loop :=
  (process_tasks U cache_dir_arg max_input_examples overwrite
     completed_file_contents).
Local Abbreviation planned task :=
  (recomputes U cache_dir_arg overwrite task).

Lemma check_splits_dirs st0 task output_dir :
  let st1 := check_splits U max_input_examples completed_file_contents
               task output_dir st0 in
  output_dirs st1
  = output_dirs st0
    ++ (if bool_decide (splits task <> []) then [output_dir] else [])
  /\ map tg_task (pipeline st1)
     = map tg_task (pipeline st0)
       ++ (if bool_decide (splits task <> []) then [task] else []).
Proof.
  cbn zeta. unfold check_splits. destruct (splits task) as [|s ss].
  - rewrite bool_decide_eq_false_2 by (intros H; now apply H).
    cbn [log output_dirs pipeline]. now rewrite !app_nil_r.
  - rewrite bool_decide_eq_true_2 by discriminate.
    unfold plan_task. destruct (is_function_source task);
      cbn [log output_dirs pipeline]; now rewrite map_app.
Qed.

Lemma process_task_dirs st task :
  output_dirs (body st task)
  = output_dirs st
    ++ (if planned task then [output_dir_of U cache_dir_arg task] else [])
  /\ map tg_task (pipeline (body st task))
     = map tg_task (pipeline st) ++ (if planned task then [task] else []).
Proof.
  unfold process_task, recomputes.
  destruct (supports_caching task); cbn [negb andb];
    [|cbn [log output_dirs pipeline]; now rewrite !app_nil_r].
  destruct (Py.truthy (cache_dir task)); cbn [negb andb orb].
  - destruct overwrite; cbn [negb andb];
      [|cbn [log output_dirs pipeline]; now rewrite !app_nil_r].
    case_bool_decide; cbn [andb];
      [|cbn [log output_dirs pipeline]; now rewrite !app_nil_r].
    apply (check_splits_dirs
             {| output_dirs := _; fs := _; pipeline := _; logs := _ |}).
  - apply check_splits_dirs.
Qed.

Lemma process_tasks_dirs registry (tasks : list Task) st :
  (forall task, task ∈ tasks ->
     registry_get registry (name task) = Some task) ->
  exists st',
    loop registry (map name tasks) st = Some st'
    /\ output_dirs st'
       = output_dirs st
         ++ map (output_dir_of U cache_dir_arg)
              (List.filter (fun task => planned task) tasks)
    /\ map tg_task (pipeline st')
       = map tg_task (pipeline st)
         ++ List.filter (fun task => planned task) tasks.
Proof.
  revert st. induction tasks as [|task tasks IH]; intros st Hget.
  - exists st. cbn. now rewrite !app_nil_r.
  - cbn [map process_tasks]. rewrite (Hget task) by apply list_elem_of_here.
    destruct (IH (body st task)) as (st' & Hrun & Ho & Hp).
    { intros t Ht. apply Hget. now apply list_elem_of_further. }
    exists st'. split; [exact Hrun|].
    destruct (process_task_dirs st task) as [Ho1 Hp1].
    rewrite Ho, Hp, Ho1, Hp1. cbn [List.filter].
    destruct (planned task); cbn [map app];
      rewrite <- !app_assoc; now split.
Qed.

Lemma registry_get_NoDup registry task :
  NoDup (map name registry) -> task ∈ registry ->
  registry_get registry (name task) = Some task.
Proof.
  unfold registry_get. induction registry as [|t registry IH]; intros Hnd Hin.
  - inversion Hin.
  - cbn [map] in Hnd. apply NoDup_cons in Hnd as [Hout Hnd]. cbn [find].
    apply elem_of_cons in Hin as [->|Hin].
    + now rewrite String.eqb_refl.
    + destruct (String.eqb_spec (name t) (name task)) as [E|_]; [|now apply IH].
      exfalso. apply Hout. rewrite E.
      now apply list_elem_of_In, in_map, list_elem_of_In.
Qed.

Lemma filter_map_name (P : string -> bool) (registry : list Task) :
  List.filter P (map name registry)
  = map name (List.filter (fun task => P (name task)) registry).
Proof.
  induction registry as [|t registry IH]; [reflexivity|].
  cbn [map List.filter]. rewrite IH. now destruct (P (name t)).
Qed.

Lemma select_tasks_filter names inc exc sel :
  select_tasks names inc exc = Some sel ->
  exists P, sel = List.filter P names.
Proof.
  unfold select_tasks. intros H.
  destruct (Re.compile _); [|discriminate].
  destruct (Re.compile _); [|discriminate].
  injection H as <-. eauto.
Qed.

Lemma filter_selected (P : string -> bool) (R : Task -> bool)
    (registry : list Task) :
  List.filter R (List.filter (fun task => P (name task)) registry)
  = List.filter
      (fun task =>
         bool_decide
           (name task
              ∈ map name (List.filter (fun task => P (name task)) registry))
         && R task)
      registry.
Proof.
  set (sel := map name (List.filter (fun task => P (name task)) registry)).
  assert (Hsel : forall task, task ∈ registry ->
            bool_decide (name task ∈ sel) = P (name task)).
  { intros task Hin. destruct (P (name task)) eqn:E.
    - apply bool_decide_eq_true_2. apply list_elem_of_In, in_map, filter_In.
      split; [now apply list_elem_of_In | exact E].
    - apply bool_decide_eq_false_2. intros H.
      apply list_elem_of_In, in_map_iff in H as (t' & Hn & Ht').
      apply filter_In in Ht' as [_ Ht']. rewrite Hn in Ht'. congruence. }
  clearbody sel. induction registry as [|t registry IH]; [reflexivity|].
  cbn [List.filter]. rewrite (Hsel t) by apply list_elem_of_here.
  rewrite <- IH by (intros task Hin; apply Hsel; now apply list_elem_of_further).
  now destruct (P (name t)).
Qed.

Lemma run_pipeline_dirs registry files inc exc sel :
  NoDup (map name registry) ->
  select_tasks (map name registry) inc exc = Some sel ->
  exists st,
    run_pipeline U cache_dir_arg max_input_examples overwrite
      completed_file_contents registry files inc exc
    = Some (output_dirs st, st)
    /\ map tg_task (pipeline st)
       = List.filter
           (fun task => bool_decide (name task ∈ sel) && planned task)
           registry
    /\ output_dirs st
       = map (output_dir_of U cache_dir_arg) (map tg_task (pipeline st)).
Proof.
  intros Hnd Hsel. unfold run_pipeline. rewrite Hsel.
  destruct (select_tasks_filter _ _ _ _ Hsel) as [P ->].
  rewrite filter_map_name.
  destruct (process_tasks_dirs registry
              (List.filter (fun task => P (name task)) registry)
              {| output_dirs := []; fs := files; pipeline := []; logs := [] |})
    as (st & -> & Ho & Hp).
  { intros task Ht. apply registry_get_NoDup; [exact Hnd|].
    apply list_elem_of_In, filter_In in Ht as [Ht _].
    now apply list_elem_of_In. }
  exists st. split; [reflexivity|].
  cbn [output_dirs pipeline map app] in Ho, Hp.
  rewrite <- filter_selected. now rewrite Hp, Ho.
Qed.

End ReturnedDirs.


